(** * The rescue proxy's execution-layer cache (executionlayer/execution-layer.go)

    A shallow embedding of the [ExecutionLayer] type of the rescue proxy: the
    two indices, the event handlers, the back-fill, the reconnection loop, the
    snapshot loader [Init] and the read path [ValidatorFeeRecipient].

    Conventions of the embedding.
    - Fixed-width byte arrays ([common.Address], 20 bytes; [common.Hash], 32
      bytes; [rptypes.ValidatorPubkey], 48 bytes) are the big-endian integer
      they spell, so [bytes.Equal] on two arrays of one width is [Z.eqb].
    - [*big.Int] is [Z]; a pointer that may be nil is an [option].
    - [*nodeInfo] pointers are locations of an explicit heap, because the
      node index stores pointers and the handlers write through them.
    - Everything the code does to the outside (RPC calls, log lines, sleeps,
      unsubscribing, starting the goroutine) is appended to a trace; what the
      outside answers is read from a [World], asked at the current length of
      the trace, so that answers may change while the program runs.
    - A Go panic ([logger.Panic], an index out of range, a nil dereference)
      ends the computation in [Panicked]. *)

From stdpp Require Import base option list gmap strings.
From Stdlib Require Import ZArith Lia.
From Stdlib.Strings Require Import Byte.

Local Open Scope string_scope.
Local Open Scope list_scope.
Local Open Scope Z_scope.

(** ** Data *)

Abbreviation Address := Z (only parsing).
Abbreviation Hash := Z (only parsing).
Abbreviation ValidatorPubkey := Z (only parsing).
Abbreviation Subscription := nat (only parsing).
Abbreviation error := string (only parsing).
Abbreviation loc := nat (only parsing).

Definition AddressLength : Z := 20.

(** [common.BytesToAddress] on the 32 bytes of a hash: the bytes are cropped
    from the left, the last 20 are kept. *)
Definition BytesToAddress (h : Hash) : Address := h mod 2 ^ (8 * AddressLength).

(** [big.NewInt(0).SetBytes(b)]: the bytes read as a big-endian unsigned
    integer. *)
Definition SetBytes (b : list byte) : Z :=
  fold_left (fun acc x => acc * 256 + Z.of_N (Byte.to_N x)) b 0.

(** [int64(x)] for [x : uint64]: two's complement reinterpretation. *)
Definition int64_of_uint64 (x : Z) : Z :=
  let y := x mod 2 ^ 64 in if y <? 2 ^ 63 then y else y - 2 ^ 64.

(** [Uint64] of a [*big.Int]: the low 64 bits of the magnitude. *)
Definition big_Uint64 (x : Z) : Z := Z.abs x mod 2 ^ 64.

(** [Int64] of a [*big.Int]: the low 64 bits of the magnitude as an int64, negated
    for a negative number. *)
Definition big_Int64 (x : Z) : Z :=
  let v := int64_of_uint64 (big_Uint64 x) in
  if x <? 0 then int64_of_uint64 (- v) else v.

Definition reconnectRetries : Z := 10.

(** [time.Second], in the nanoseconds of [time.Duration]. *)
Definition Second : Z := 1000000000.

Record nodeInfo := {
  inSmoothingPool : bool;
  feeDistributor : Address
}.

(** The zero value [nodeInfo{}]. *)
Definition zeroNodeInfo : nodeInfo :=
  {| inSmoothingPool := false; feeDistributor := 0 |}.

(** [types.Log], the fields the package reads. *)
Record Log := {
  LogAddress : Address;
  Topics : list Hash;
  Data : list byte;
  BlockNumber : Z
}.

(** [ethereum.FilterQuery]. *)
Record FilterQuery := {
  Addresses : list Address;
  FromBlock : option Z;
  ToBlock : option Z;
  QueryTopics : list (list Hash)
}.

Definition emptyQuery : FilterQuery :=
  {| Addresses := []; FromBlock := None; ToBlock := None; QueryTopics := [] |}.

(** [rocketpool.Contract], of which only the address is read. *)
Record Contract := { ContractAddress : Address }.

(** [bind.CallOpts], of which only the block number is set. Calls take a
    [*bind.CallOpts], an [option CallOpts]: nil asks for the latest state. *)
Record CallOpts := { OptsBlockNumber : option Z }.

Inductive rpc (A : Type) : Type :=
| Ok (a : A)
| Fail (err : error).
Arguments Ok {A} a.
Arguments Fail {A} err.

Inductive Level := DebugLevel | WarnLevel | ErrorLevel | PanicLevel.

(** The fields of a log line, after zap's constructors. [zap_String] carries
    the address, hash or key whose [String()] is logged, by its value. *)
Inductive Field :=
| zap_String (key : string) (v : Z)
| zap_Int (key : string) (v : Z)
| zap_Int64 (key : string) (v : Z)
| zap_Uint64 (key : string) (v : Z)
| zap_Bool (key : string) (b : bool)
| zap_Error (err : error).

(** What the program does to the outside, in order. *)
Inductive Effect :=
| ELog (lvl : Level) (msg : string) (fields : list Field)
| EDial (url : string)
| ENewRocketPool (storage : string)
| EHeaderByNumber
| EGetContract (name : string) (opts : option CallOpts)
| EGetNodes (opts : option CallOpts)
| EGetSmoothingPoolRegistrationState (a : Address) (opts : option CallOpts)
| EGetDistributorAddress (a : Address) (opts : option CallOpts)
| EGetNodeMinipools (a : Address) (opts : option CallOpts)
| EGetMinipoolDetails (a : Address) (opts : option CallOpts)
| EFilterLogs (q : FilterQuery)
| ESubscribeFilterLogs (q : FilterQuery)
| ESubscribeNewHead
| EUnsubscribe (s : Subscription)
| ESleep (d : Z)
| EGo (logSub headSub : Subscription).

(** The execution client and the Rocket Pool contracts behind it. The first
    argument of every call is the time it is made at (the number of effects
    so far). *)
Record World := {
  Dial : nat -> string -> option error;
  NewRocketPool : nat -> string -> option error;
  HeaderByNumber : nat -> rpc Z;
  GetContract : nat -> string -> option CallOpts -> rpc Contract;
  GetNodes : nat -> option CallOpts -> rpc (list Address);
  GetSmoothingPoolRegistrationState : nat -> Address -> option CallOpts -> rpc bool;
  GetDistributorAddress : nat -> Address -> option CallOpts -> rpc Address;
  GetNodeMinipools : nat -> Address -> option CallOpts -> rpc (list ValidatorPubkey);
  GetMinipoolDetails : nat -> Address -> option CallOpts -> rpc ValidatorPubkey;
  FilterLogs : nat -> FilterQuery -> rpc (list Log);
  SubscribeFilterLogs : nat -> FilterQuery -> rpc Subscription;
  SubscribeNewHead : nat -> rpc Subscription
}.

(** [ExecutionLayer]. The logger, the channels and the wait group are not
    state of the embedding; [client] and [rp] are the [World]. The last
    three fields are the heap of [nodeInfo] records, the trace, and the
    goroutine started by [ecEventsConnect] with its two subscriptions. *)
Record ExecutionLayer := {
  ecURL : string;
  rocketStorageAddr : string;
  rocketNodeManager : option Contract;
  rocketMinipoolManager : option Contract;
  smoothingPool : option Contract;
  nodeRegisteredTopic : Hash;
  smoothingPoolStatusChangedTopic : Hash;
  minipoolLaunchedTopic : Hash;
  query : FilterQuery;
  minipoolIndex : gmap Z Z;
  nodeIndex : gmap Z nat;
  highestBlock : option Z;
  ethclientShutdownCb : option (Subscription * Subscription);
  shutdown : bool;
  heap : list nodeInfo;
  trace : list Effect;
  ingestor : option (Subscription * Subscription)
}.

(** [NewExecutionLayer]. *)
Definition NewExecutionLayer (url storage : string) : ExecutionLayer :=
  {| ecURL := url; rocketStorageAddr := storage;
     rocketNodeManager := None; rocketMinipoolManager := None;
     smoothingPool := None;
     nodeRegisteredTopic := 0; smoothingPoolStatusChangedTopic := 0;
     minipoolLaunchedTopic := 0;
     query := emptyQuery;
     minipoolIndex := ∅; nodeIndex := ∅;
     highestBlock := None; ethclientShutdownCb := None; shutdown := false;
     heap := []; trace := []; ingestor := None |}.

(** Field updates. *)
Definition with_contracts (nm mm sp : option Contract) (e : ExecutionLayer) :=
  {| ecURL := ecURL e; rocketStorageAddr := rocketStorageAddr e;
     rocketNodeManager := nm; rocketMinipoolManager := mm; smoothingPool := sp;
     nodeRegisteredTopic := nodeRegisteredTopic e;
     smoothingPoolStatusChangedTopic := smoothingPoolStatusChangedTopic e;
     minipoolLaunchedTopic := minipoolLaunchedTopic e;
     query := query e;
     minipoolIndex := minipoolIndex e; nodeIndex := nodeIndex e;
     highestBlock := highestBlock e;
     ethclientShutdownCb := ethclientShutdownCb e; shutdown := shutdown e;
     heap := heap e; trace := trace e; ingestor := ingestor e |}.

Definition with_topics (t1 t2 t3 : Hash) (e : ExecutionLayer) :=
  {| ecURL := ecURL e; rocketStorageAddr := rocketStorageAddr e;
     rocketNodeManager := rocketNodeManager e;
     rocketMinipoolManager := rocketMinipoolManager e;
     smoothingPool := smoothingPool e;
     nodeRegisteredTopic := t1;
     smoothingPoolStatusChangedTopic := t2;
     minipoolLaunchedTopic := t3;
     query := query e;
     minipoolIndex := minipoolIndex e; nodeIndex := nodeIndex e;
     highestBlock := highestBlock e;
     ethclientShutdownCb := ethclientShutdownCb e; shutdown := shutdown e;
     heap := heap e; trace := trace e; ingestor := ingestor e |}.

Definition with_query (q : FilterQuery) (e : ExecutionLayer) :=
  {| ecURL := ecURL e; rocketStorageAddr := rocketStorageAddr e;
     rocketNodeManager := rocketNodeManager e;
     rocketMinipoolManager := rocketMinipoolManager e;
     smoothingPool := smoothingPool e;
     nodeRegisteredTopic := nodeRegisteredTopic e;
     smoothingPoolStatusChangedTopic := smoothingPoolStatusChangedTopic e;
     minipoolLaunchedTopic := minipoolLaunchedTopic e;
     query := q;
     minipoolIndex := minipoolIndex e; nodeIndex := nodeIndex e;
     highestBlock := highestBlock e;
     ethclientShutdownCb := ethclientShutdownCb e; shutdown := shutdown e;
     heap := heap e; trace := trace e; ingestor := ingestor e |}.

Definition with_minipoolIndex (m : gmap Z Z) (e : ExecutionLayer) :=
  {| ecURL := ecURL e; rocketStorageAddr := rocketStorageAddr e;
     rocketNodeManager := rocketNodeManager e;
     rocketMinipoolManager := rocketMinipoolManager e;
     smoothingPool := smoothingPool e;
     nodeRegisteredTopic := nodeRegisteredTopic e;
     smoothingPoolStatusChangedTopic := smoothingPoolStatusChangedTopic e;
     minipoolLaunchedTopic := minipoolLaunchedTopic e;
     query := query e;
     minipoolIndex := m; nodeIndex := nodeIndex e;
     highestBlock := highestBlock e;
     ethclientShutdownCb := ethclientShutdownCb e; shutdown := shutdown e;
     heap := heap e; trace := trace e; ingestor := ingestor e |}.

Definition with_nodeIndex (m : gmap Z nat) (e : ExecutionLayer) :=
  {| ecURL := ecURL e; rocketStorageAddr := rocketStorageAddr e;
     rocketNodeManager := rocketNodeManager e;
     rocketMinipoolManager := rocketMinipoolManager e;
     smoothingPool := smoothingPool e;
     nodeRegisteredTopic := nodeRegisteredTopic e;
     smoothingPoolStatusChangedTopic := smoothingPoolStatusChangedTopic e;
     minipoolLaunchedTopic := minipoolLaunchedTopic e;
     query := query e;
     minipoolIndex := minipoolIndex e; nodeIndex := m;
     highestBlock := highestBlock e;
     ethclientShutdownCb := ethclientShutdownCb e; shutdown := shutdown e;
     heap := heap e; trace := trace e; ingestor := ingestor e |}.

Definition with_highestBlock (b : option Z) (e : ExecutionLayer) :=
  {| ecURL := ecURL e; rocketStorageAddr := rocketStorageAddr e;
     rocketNodeManager := rocketNodeManager e;
     rocketMinipoolManager := rocketMinipoolManager e;
     smoothingPool := smoothingPool e;
     nodeRegisteredTopic := nodeRegisteredTopic e;
     smoothingPoolStatusChangedTopic := smoothingPoolStatusChangedTopic e;
     minipoolLaunchedTopic := minipoolLaunchedTopic e;
     query := query e;
     minipoolIndex := minipoolIndex e; nodeIndex := nodeIndex e;
     highestBlock := b;
     ethclientShutdownCb := ethclientShutdownCb e; shutdown := shutdown e;
     heap := heap e; trace := trace e; ingestor := ingestor e |}.

Definition with_ethclientShutdownCb (cb : option (Subscription * Subscription))
    (e : ExecutionLayer) :=
  {| ecURL := ecURL e; rocketStorageAddr := rocketStorageAddr e;
     rocketNodeManager := rocketNodeManager e;
     rocketMinipoolManager := rocketMinipoolManager e;
     smoothingPool := smoothingPool e;
     nodeRegisteredTopic := nodeRegisteredTopic e;
     smoothingPoolStatusChangedTopic := smoothingPoolStatusChangedTopic e;
     minipoolLaunchedTopic := minipoolLaunchedTopic e;
     query := query e;
     minipoolIndex := minipoolIndex e; nodeIndex := nodeIndex e;
     highestBlock := highestBlock e;
     ethclientShutdownCb := cb; shutdown := shutdown e;
     heap := heap e; trace := trace e; ingestor := ingestor e |}.

Definition with_shutdown (b : bool) (e : ExecutionLayer) :=
  {| ecURL := ecURL e; rocketStorageAddr := rocketStorageAddr e;
     rocketNodeManager := rocketNodeManager e;
     rocketMinipoolManager := rocketMinipoolManager e;
     smoothingPool := smoothingPool e;
     nodeRegisteredTopic := nodeRegisteredTopic e;
     smoothingPoolStatusChangedTopic := smoothingPoolStatusChangedTopic e;
     minipoolLaunchedTopic := minipoolLaunchedTopic e;
     query := query e;
     minipoolIndex := minipoolIndex e; nodeIndex := nodeIndex e;
     highestBlock := highestBlock e;
     ethclientShutdownCb := ethclientShutdownCb e; shutdown := b;
     heap := heap e; trace := trace e; ingestor := ingestor e |}.

Definition with_heap (h : list nodeInfo) (e : ExecutionLayer) :=
  {| ecURL := ecURL e; rocketStorageAddr := rocketStorageAddr e;
     rocketNodeManager := rocketNodeManager e;
     rocketMinipoolManager := rocketMinipoolManager e;
     smoothingPool := smoothingPool e;
     nodeRegisteredTopic := nodeRegisteredTopic e;
     smoothingPoolStatusChangedTopic := smoothingPoolStatusChangedTopic e;
     minipoolLaunchedTopic := minipoolLaunchedTopic e;
     query := query e;
     minipoolIndex := minipoolIndex e; nodeIndex := nodeIndex e;
     highestBlock := highestBlock e;
     ethclientShutdownCb := ethclientShutdownCb e; shutdown := shutdown e;
     heap := h; trace := trace e; ingestor := ingestor e |}.

Definition with_trace (t : list Effect) (e : ExecutionLayer) :=
  {| ecURL := ecURL e; rocketStorageAddr := rocketStorageAddr e;
     rocketNodeManager := rocketNodeManager e;
     rocketMinipoolManager := rocketMinipoolManager e;
     smoothingPool := smoothingPool e;
     nodeRegisteredTopic := nodeRegisteredTopic e;
     smoothingPoolStatusChangedTopic := smoothingPoolStatusChangedTopic e;
     minipoolLaunchedTopic := minipoolLaunchedTopic e;
     query := query e;
     minipoolIndex := minipoolIndex e; nodeIndex := nodeIndex e;
     highestBlock := highestBlock e;
     ethclientShutdownCb := ethclientShutdownCb e; shutdown := shutdown e;
     heap := heap e; trace := t; ingestor := ingestor e |}.

Definition with_ingestor (g : option (Subscription * Subscription))
    (e : ExecutionLayer) :=
  {| ecURL := ecURL e; rocketStorageAddr := rocketStorageAddr e;
     rocketNodeManager := rocketNodeManager e;
     rocketMinipoolManager := rocketMinipoolManager e;
     smoothingPool := smoothingPool e;
     nodeRegisteredTopic := nodeRegisteredTopic e;
     smoothingPoolStatusChangedTopic := smoothingPoolStatusChangedTopic e;
     minipoolLaunchedTopic := minipoolLaunchedTopic e;
     query := query e;
     minipoolIndex := minipoolIndex e; nodeIndex := nodeIndex e;
     highestBlock := highestBlock e;
     ethclientShutdownCb := ethclientShutdownCb e; shutdown := shutdown e;
     heap := heap e; trace := trace e; ingestor := g |}.

(** ** The monad of the embedding: state, and panics *)

Inductive outcome (A : Type) : Type :=
| Returned (a : A) (e : ExecutionLayer)
| Panicked (msg : string) (e : ExecutionLayer).
Arguments Returned {A} a e.
Arguments Panicked {A} msg e.

Definition M (A : Type) : Type := ExecutionLayer -> outcome A.

Definition ret {A} (a : A) : M A := fun e => Returned a e.

Definition bind {A B} (m : M A) (k : A -> M B) : M B :=
  fun e => match m e with
           | Returned a e' => k a e'
           | Panicked msg e' => Panicked msg e'
           end.

Declare Scope go_scope.
Delimit Scope go_scope with go.
Notation "'let*' x ':=' m 'in' k" := (bind m (fun x => k))
  (at level 10, x name, m at level 100, k at level 200,
   format "'[v' 'let*'  x  ':='  m  'in' '/' k ']'") : go_scope.
Notation "'run' m 'then' k" := (bind m (fun _ => k))
  (at level 10, m at level 100, k at level 200,
   format "'[v' 'run'  m  'then' '/' k ']'") : go_scope.
Local Open Scope go_scope.

Definition gets {A} (f : ExecutionLayer -> A) : M A := fun e => Returned (f e) e.
Definition modify (f : ExecutionLayer -> ExecutionLayer) : M unit :=
  fun e => Returned tt (f e).
Definition panic {A} (msg : string) : M A := fun e => Panicked msg e.

(** The value an outcome returns, if it returns. *)
Definition value {A} (o : outcome A) : option A :=
  match o with Returned a _ => Some a | Panicked _ _ => None end.

(** The state an outcome ends in. *)
Definition final {A} (o : outcome A) : ExecutionLayer :=
  match o with Returned _ e => e | Panicked _ e => e end.

Definition emit (x : Effect) : M unit :=
  modify (fun e => with_trace (trace e ++ [x]) e).

(** A call to the outside: the answer is the world's at the present time. *)
Definition call {A} (x : Effect) (answer : nat -> A) : M A :=
  fun e => Returned (answer (length (trace e))) (with_trace (trace e ++ [x]) e).

Definition logDebug msg fields : M unit := emit (ELog DebugLevel msg fields).
Definition logWarn msg fields : M unit := emit (ELog WarnLevel msg fields).
Definition logError msg fields : M unit := emit (ELog ErrorLevel msg fields).
(** [logger.Panic] writes the line and panics. *)
Definition logPanic {A} msg fields : M A :=
  run emit (ELog PanicLevel msg fields) then panic msg.

Definition sleep (d : Z) : M unit := emit (ESleep d).

Fixpoint forM_ {A} (f : A -> M unit) (l : list A) : M unit :=
  match l with
  | [] => ret tt
  | x :: l' => run f x then forM_ f l'
  end.

(** [new(nodeInfo)] with the given contents. *)
Definition alloc (ni : nodeInfo) : M loc :=
  fun e => Returned (length (heap e)) (with_heap (heap e ++ [ni]) e).

(** [*ptr]. *)
Definition deref (ptr : loc) : M nodeInfo :=
  fun e => match heap e !! ptr with
           | Some ni => Returned ni e
           | None => Panicked "invalid memory address or nil pointer dereference" e
           end.

(** [*ptr = ni]. *)
Definition assign (ptr : loc) (ni : nodeInfo) : M unit :=
  fun e => match heap e !! ptr with
           | Some _ => Returned tt (with_heap (<[ptr := ni]> (heap e)) e)
           | None => Panicked "invalid memory address or nil pointer dereference" e
           end.

(** [event.Topics[i]]. *)
Definition topicAt (event : Log) (i : nat) : M Hash :=
  match Topics event !! i with
  | Some h => ret h
  | None => panic "index out of range"
  end.

(** [c.Address] through a [*rocketpool.Contract] that may be nil. *)
Definition contractAddr (f : ExecutionLayer -> option Contract) : M Address :=
  let* c := gets f in
  match c with
  | Some c => ret (ContractAddress c)
  | None => panic "invalid memory address or nil pointer dereference"
  end.

(** [ptr.inSmoothingPool = b] and [ptr.feeDistributor = a]. *)
Definition set_inSmoothingPool (ptr : loc) (b : bool) : M unit :=
  let* old := deref ptr in
  assign ptr {| inSmoothingPool := b; feeDistributor := feeDistributor old |}.

Definition set_feeDistributor (ptr : loc) (a : Address) : M unit :=
  let* old := deref ptr in
  assign ptr {| inSmoothingPool := inSmoothingPool old; feeDistributor := a |}.

(** The value a failed call hands back beside its error is the zero value. *)
Definition value_or {A} (zero : A) (r : rpc A) : A :=
  match r with Ok a => a | Fail _ => zero end.

(** [e.nodeIndex.Store] and [e.minipoolIndex.Store]. *)
Definition nodeIndex_Store (a : Address) (ptr : loc) : M unit :=
  modify (fun e => with_nodeIndex (<[a := ptr]> (nodeIndex e)) e).

Definition minipoolIndex_Store (p : ValidatorPubkey) (a : Address) : M unit :=
  modify (fun e => with_minipoolIndex (<[p := a]> (minipoolIndex e)) e).

(** ** The event handlers *)

Definition handleNodeEvent (w : World) (event : Log) : M unit :=
  let* topic0 := topicAt event 0 in
  let* registered := gets nodeRegisteredTopic in
  (* Check if it's a node registration *)
  if topic0 =? registered then
    (* When we see new nodes register, assume they aren't in the SP and add to index *)
    let* nodeInfo := alloc zeroNodeInfo in
    let* topic1 := topicAt event 1 in
    let addr := BytesToAddress topic1 in
    run nodeIndex_Store addr nodeInfo then
    logDebug "New node registered" [zap_String "addr" addr]
  else
  let* changed := gets smoothingPoolStatusChangedTopic in
  (* Otherwise it should be a smoothing pool update *)
  if topic0 =? changed then
    let* topic1 := topicAt event 1 in
    let nodeAddr := BytesToAddress topic1 in
    let status := SetBytes (Data event) in
    (* Attempt to load the node *)
    let* index := gets nodeIndex in
    let* n :=
      match index !! nodeAddr with
      | Some ptr => ret ptr
      | None =>
          (* Odd that we don't have this node already, but add it and carry on *)
          run logWarn "Unknown node updated its smoothing pool status"
                [zap_String "addr" nodeAddr] then
          let* n := alloc zeroNodeInfo in
          (* Get their fee distributor address *)
          let* r := call (EGetDistributorAddress nodeAddr None)
                      (fun t => GetDistributorAddress w t nodeAddr None) in
          run set_feeDistributor n (value_or 0 r) then
          match r with
          | Fail _ =>
              run logWarn "Couldn't compute fee distributor address for unknown node"
                    [zap_String "node" nodeAddr] then
              ret n
          | Ok _ => ret n
          end
      end in
    run logDebug "Node SP status changed"
          [zap_String "addr" nodeAddr; zap_Bool "in_sp" (status =? 1)] then
    set_inSmoothingPool n (status =? 1)
  else
    logWarn "Event with unknown topic received" [zap_String "string" topic0].

Definition handleMinipoolEvent (w : World) (event : Log) : M unit :=
  let* topic0 := topicAt event 0 in
  let* launched := gets minipoolLaunchedTopic in
  (* Make sure it's an event for the only topic we subscribed to, minipool launches *)
  if negb (topic0 =? launched) then
    logWarn "Event with unknown topic received" [zap_String "string" topic0]
  else
    (* When a new minipool launches, grab its node address. *)
    let* topic2 := topicAt event 2 in
    let nodeAddr := BytesToAddress topic2 in
    (* Grab its minipool (contract) address and use that to find its public key *)
    let* topic1 := topicAt event 1 in
    let minipoolAddr := BytesToAddress topic1 in
    let* r := call (EGetMinipoolDetails minipoolAddr None)
                (fun t => GetMinipoolDetails w t minipoolAddr None) in
    match r with
    | Fail err =>
        logWarn "Error fetching minipool details for new minipools"
          [zap_String "minipool" minipoolAddr; zap_Error err]
    | Ok pubkey =>
        (* Finally, update the minipool index *)
        run minipoolIndex_Store pubkey nodeAddr then
        logDebug "Added new minipool"
          [zap_String "pubkey" pubkey; zap_String "node" nodeAddr]
    end.

Definition handleEvent (w : World) (event : Log) : M unit :=
  let out : M unit :=
    (* We should always update highestBlock when we receive any event *)
    modify (with_highestBlock (Some (int64_of_uint64 (BlockNumber event)))) in
  (* events from the rocketNodeManager contract *)
  let* nm := contractAddr rocketNodeManager in
  if nm =? LogAddress event then
    run handleNodeEvent w event then out
  else
  (* events from the rocketMinipoolManager contract *)
  let* mm := contractAddr rocketMinipoolManager in
  if mm =? LogAddress event then
    run handleMinipoolEvent w event then out
  else
    (* Shouldn't ever happen, barring a bug in ethclient *)
    run logWarn "Received event for unknown contract"
          [zap_String "address" (LogAddress event)] then
    out.

(** ** Back-fill *)

Definition backfillEvents (w : World) : M (option error) :=
  let* hb := gets highestBlock in
  match hb with
  | None => panic "invalid memory address or nil pointer dereference"
  | Some hb =>
  (* Since highestBlock was the highest processed block, start one block after *)
  let start := hb + 1 in
  (* Get current block *)
  let* header := call EHeaderByNumber (HeaderByNumber w) in
  match header with
  | Fail err => ret (Some err)
  | Ok stop =>
  (* Make sure there is actually a gap before backfilling *)
  if stop <? start then
    run logDebug "No blocks to backfill events from" [] then
    ret None
  else
    let* mm := contractAddr rocketMinipoolManager in
    let* nm := contractAddr rocketNodeManager in
    let* t1 := gets nodeRegisteredTopic in
    let* t2 := gets smoothingPoolStatusChangedTopic in
    let* t3 := gets minipoolLaunchedTopic in
    let q := {| Addresses := [mm; nm];
                FromBlock := Some start;
                ToBlock := Some stop;
                QueryTopics := [[t1; t2; t3]] |} in
    let* r := call (EFilterLogs q) (fun t => FilterLogs w t q) in
    match r with
    | Fail err => ret (Some err)
    | Ok missedEvents =>
        run forM_ (handleEvent w) missedEvents then
        (* Force the highest block to update, as we may not have received any
           events in it, which would have updated it *)
        run modify (with_highestBlock (Some stop)) then
        let delta := stop - start in
        (* If start == stop we actually fill that one block, so add one to delta *)
        let delta := delta + 1 in
        run logDebug "Backfilled events"
              [zap_Int "events" (Z.of_nat (length missedEvents));
               zap_Uint64 "blocks" (big_Uint64 delta);
               zap_Int64 "start" (big_Int64 start);
               zap_Int64 "stop" (big_Int64 stop)] then
        ret None
    end
  end
  end.

(** ** Reconnecting *)

(** [setECShutdownCb]: the callback is kept as the two subscriptions it
    unsubscribes. *)
Definition setECShutdownCb (cb : option (Subscription * Subscription)) : M unit :=
  modify (with_ethclientShutdownCb cb).

(** The loop of [handleSubscriptionError], [for i := 0; i < reconnectRetries;
    i++]: [n] is the number of iterations left, [reconnectRetries - i]. The
    result is the pair of subscriptions written through the two pointers. *)
Fixpoint reconnectLoop (w : World) (n : nat) (i : Z)
    : M (Subscription * Subscription) :=
  match n with
  | O =>
      (* Failed to reconnect after 10 tries *)
      logPanic "Couldn't re-establish eth client connection" []
  | S n' =>
      run logWarn "Attempting to reconnect" [zap_Int "attempt" (i + 1)] then
      let* q := gets query in
      let* r := call (ESubscribeFilterLogs q) (fun t => SubscribeFilterLogs w t q) in
      match r with
      | Ok s =>
          run logWarn "Reconnected" [zap_Int "attempt" (i + 1)] then
          (* Resubscribe to new headers - no retries *)
          let* r := call ESubscribeNewHead (SubscribeNewHead w) in
          match r with
          | Fail _ =>
              run logWarn "Couldn't resubscribe to block headers after reconnecting" [] then
              (* break *)
              logPanic "Couldn't re-establish eth client connection" []
          | Ok h =>
              run setECShutdownCb (Some (s, h)) then
              (* Now that we've reconnected, we need to backfill *)
              let* err := backfillEvents w in
              match err with
              | Some _ =>
                  (* Failed to backfill *)
                  logPanic "Couldn't backfill blocks after reconnecting to execution client" []
              | None => ret (s, h)
              end
          end
      | Fail err =>
          run logWarn "Error trying to reconnect to execution client" [zap_Error err] then
          run sleep (i * (5 * Second)) then
          reconnectLoop w n' (i + 1)
      end
  end.

(** [handleSubscriptionError]: takes the two subscriptions the pointers hold
    and returns the two they hold afterwards. *)
Definition handleSubscriptionError (w : World) (err : error)
    (subs : Subscription * Subscription) : M (Subscription * Subscription) :=
  let* down := gets shutdown in
  if down then ret subs
  else
    run logWarn "Error received from eth client subscription" [zap_Error err] then
    (* Attempt to reconnect `reconnectRetries` times with steadily increasing waits *)
    reconnectLoop w (Z.to_nat reconnectRetries) 0.

(** ** Subscribing, and the goroutine that listens *)

(** [crypto.Keccak256Hash] of the three event signatures. *)
Definition Keccak256Hash_NodeRegistered : Hash :=
  0xf773bca07d020a1bc1fdd45ea3db573da547dd27180143afaf075c158a847594.
Definition Keccak256Hash_NodeSmoothingPoolStateChanged : Hash :=
  0xed2d3ca39683fb0f50a70ed75c33a19bfe200e529d99e6f7518453b3fc4e9be4.
Definition Keccak256Hash_MinipoolCreated : Hash :=
  0x08b4b91bafaf992145c5dd7e098dfcdb32f879714c154c651c2758a44c7aeae4.

(** What the [select] of the goroutine receives. A closed channel delivers
    [None]. *)
Inductive Select :=
| LogSubscriptionErr (err : error)
| NewHeadSubscriptionErr (err : error)
| EventsRecv (x : option Log)
| NewHeadersRecv (x : option Z).

(** The goroutine's local variables. *)
Record Locals := {
  logSubscription : Subscription;
  newHeadSubscription : Subscription;
  noMoreEvents : bool;
  noMoreHeaders : bool
}.

(** The end of the loop body, reached by the cases that do not [continue]:
    [None] leaves the loop. *)
Definition loopEnd (l : Locals) : M (option Locals) :=
  (* If we didn't process any events in the select and the channels are
     closed, no new events will come, so break the loop *)
  if noMoreEvents l && noMoreHeaders l then
    let* hb := gets highestBlock in
    match hb with
    | None => panic "invalid memory address or nil pointer dereference"
    | Some hb =>
        run logDebug "Finished processing events" [zap_Int64 "height" (big_Int64 hb)] then
        ret None
    end
  else ret (Some l).

(** One turn of the goroutine's [for] loop, on what its [select] received. *)
Definition iteration (w : World) (l : Locals) (s : Select) : M (option Locals) :=
  match s with
  | LogSubscriptionErr err =>
      run emit (EUnsubscribe (newHeadSubscription l)) then
      let* subs := handleSubscriptionError w err
                     (logSubscription l, newHeadSubscription l) in
      loopEnd {| logSubscription := subs.1; newHeadSubscription := subs.2;
                 noMoreEvents := noMoreEvents l; noMoreHeaders := noMoreHeaders l |}
  | NewHeadSubscriptionErr err =>
      run emit (EUnsubscribe (logSubscription l)) then
      let* subs := handleSubscriptionError w err
                     (logSubscription l, newHeadSubscription l) in
      loopEnd {| logSubscription := subs.1; newHeadSubscription := subs.2;
                 noMoreEvents := noMoreEvents l; noMoreHeaders := noMoreHeaders l |}
  | EventsRecv None =>
      loopEnd {| logSubscription := logSubscription l;
                 newHeadSubscription := newHeadSubscription l;
                 noMoreEvents := true; noMoreHeaders := noMoreHeaders l |}
  | EventsRecv (Some event) =>
      run handleEvent w event then
      loopEnd {| logSubscription := logSubscription l;
                 newHeadSubscription := newHeadSubscription l;
                 noMoreEvents := false; noMoreHeaders := noMoreHeaders l |}
  | NewHeadersRecv None =>
      loopEnd {| logSubscription := logSubscription l;
                 newHeadSubscription := newHeadSubscription l;
                 noMoreEvents := noMoreEvents l; noMoreHeaders := true |}
  | NewHeadersRecv (Some number) =>
      let l' := {| logSubscription := logSubscription l;
                   newHeadSubscription := newHeadSubscription l;
                   noMoreEvents := noMoreEvents l; noMoreHeaders := false |} in
      let* hb := gets highestBlock in
      match hb with
      | None => panic "invalid memory address or nil pointer dereference"
      | Some hb =>
          (* Make sure we don't rewind, in the edge case where many events
             queue up and update highestBlock, then we fall through to this
             block and wind it back. *)
          if number <=? hb then ret (Some l')
          else
            (* Just advance highest block *)
            run logDebug "New block received"
                  [zap_Int64 "new height" (big_Int64 number);
                   zap_Int64 "old height" (big_Int64 hb)] then
            run modify (with_highestBlock (Some number)) then
            (* Continue here to check for new events *)
            ret (Some l')
      end
  end.

(** The goroutine on a sequence of receptions; it stops at the first turn
    that leaves the loop. *)
Fixpoint ingest (w : World) (l : Locals) (ss : list Select) : M (option Locals) :=
  match ss with
  | [] => ret (Some l)
  | s :: ss' =>
      let* l' := iteration w l s in
      match l' with
      | None => ret None
      | Some l' => ingest w l' ss'
      end
  end.

(** [ecEventsConnect]: registers to receive the events we care about. *)
Definition ecEventsConnect (w : World) (opts : option CallOpts) : M (option error) :=
  run modify (with_topics Keccak256Hash_NodeRegistered
                Keccak256Hash_NodeSmoothingPoolStateChanged
                Keccak256Hash_MinipoolCreated) then
  (* Subscribe to events from rocketNodeManager and rocketMinipoolManager *)
  let* mm := contractAddr rocketMinipoolManager in
  let* nm := contractAddr rocketNodeManager in
  let* t1 := gets nodeRegisteredTopic in
  let* t2 := gets smoothingPoolStatusChangedTopic in
  let* t3 := gets minipoolLaunchedTopic in
  let q := {| Addresses := [mm; nm]; FromBlock := None; ToBlock := None;
              QueryTopics := [[t1; t2; t3]] |} in
  run modify (with_query q) then
  (* Set highestBlock to the same block that we used to build the cache from cold *)
  match opts with
  | None => panic "invalid memory address or nil pointer dereference"
  | Some opts =>
  run modify (with_highestBlock (OptsBlockNumber opts)) then
  let* r := call (ESubscribeFilterLogs q) (fun t => SubscribeFilterLogs w t q) in
  match r with
  | Fail err => ret (Some err)
  | Ok sub =>
  let* r := call ESubscribeNewHead (SubscribeNewHead w) in
  match r with
  | Fail err => ret (Some err)
  | Ok newHeadSub =>
  run logDebug "Subscribed to EL events" [] then
  (* After subscribing, we need to grab the current block and replay events
     between highestBlock and the current one. *)
  let* err := backfillEvents w in
  match err with
  | Some err => ret (Some err)
  | None =>
  (* Make sure we can unsubscribe on shutdown *)
  run setECShutdownCb (Some (sub, newHeadSub)) then
  (* Start listening for events in a separate routine *)
  run emit (EGo sub newHeadSub) then
  run modify (with_ingestor (Some (sub, newHeadSub))) then
  ret None
  end
  end
  end
  end.

(** ** The snapshot *)

(** [for _, minipool := range minipools]. *)
Definition storeMinipools (n : Address) (minipools : list ValidatorPubkey) : M unit :=
  forM_ (fun pubkey => minipoolIndex_Store pubkey n) minipools.

(** [for _, n := range nodes] of [Init]: the result is the error the body
    returned with, or the minipool count. *)
Fixpoint preload (w : World) (opts : option CallOpts) (nodes : list Address)
    (minipoolCount : Z) : M (rpc Z) :=
  match nodes with
  | [] => ret (Ok minipoolCount)
  | n :: nodes' =>
      (* Allocate a pointer for this node *)
      let* nodeInfo := alloc zeroNodeInfo in
      (* Determine their smoothing pool status *)
      let* r := call (EGetSmoothingPoolRegistrationState n opts)
                  (fun t => GetSmoothingPoolRegistrationState w t n opts) in
      run set_inSmoothingPool nodeInfo (value_or false r) then
      match r with
      | Fail err => ret (Fail err)
      | Ok _ =>
      (* Get their fee distributor address *)
      let* r := call (EGetDistributorAddress n opts)
                  (fun t => GetDistributorAddress w t n opts) in
      run set_feeDistributor nodeInfo (value_or 0 r) then
      match r with
      | Fail err => ret (Fail err)
      | Ok _ =>
      (* Store the smoothing pool state / fee distributor in the node index *)
      run nodeIndex_Store n nodeInfo then
      (* Also grab their minipools *)
      let* r := call (EGetNodeMinipools n opts)
                  (fun t => GetNodeMinipools w t n opts) in
      match r with
      | Fail err => ret (Fail err)
      | Ok minipools =>
          run storeMinipools n minipools then
          preload w opts nodes' (minipoolCount + Z.of_nat (length minipools))
      end
      end
      end
  end.

(** [Init] creates and warms up the cache. *)
Definition Init (w : World) : M (option error) :=
  let* url := gets ecURL in
  let* r := call (EDial url) (fun t => Dial w t url) in
  match r with
  | Some err => ret (Some err)
  | None =>
  let* storage := gets rocketStorageAddr in
  let* r := call (ENewRocketPool storage) (fun t => NewRocketPool w t storage) in
  match r with
  | Some err => ret (Some err)
  | None =>
  (* First, get the current block *)
  let* header := call EHeaderByNumber (HeaderByNumber w) in
  match header with
  | Fail err => ret (Some err)
  | Ok number =>
  (* Create opts to query state at that block *)
  let opts := Some {| OptsBlockNumber := Some number |} in
  (* Load contracts *)
  let* r := call (EGetContract "rocketNodeManager" opts)
              (fun t => GetContract w t "rocketNodeManager" opts) in
  match r with
  | Fail err =>
      run modify (fun e => with_contracts None (rocketMinipoolManager e) (smoothingPool e) e) then
      ret (Some err)
  | Ok c =>
  run modify (fun e => with_contracts (Some c) (rocketMinipoolManager e) (smoothingPool e) e) then
  let* r := call (EGetContract "rocketMinipoolManager" opts)
              (fun t => GetContract w t "rocketMinipoolManager" opts) in
  match r with
  | Fail err =>
      run modify (fun e => with_contracts (rocketNodeManager e) None (smoothingPool e) e) then
      ret (Some err)
  | Ok c =>
  run modify (fun e => with_contracts (rocketNodeManager e) (Some c) (smoothingPool e) e) then
  let* r := call (EGetContract "rocketSmoothingPool" opts)
              (fun t => GetContract w t "rocketSmoothingPool" opts) in
  match r with
  | Fail err =>
      run modify (fun e => with_contracts (rocketNodeManager e) (rocketMinipoolManager e) None e) then
      ret (Some err)
  | Ok c =>
  run modify (fun e => with_contracts (rocketNodeManager e) (rocketMinipoolManager e) (Some c) e) then
  (* Get all nodes at the given block *)
  let* r := call (EGetNodes opts) (fun t => GetNodes w t opts) in
  match r with
  | Fail err => ret (Some err)
  | Ok nodes =>
  run logDebug "Found nodes to preload"
        [zap_Int "count" (Z.of_nat (length nodes));
         zap_Int64 "block" (big_Int64 number)] then
  let* r := preload w opts nodes 0 in
  match r with
  | Fail err => ret (Some err)
  | Ok minipoolCount =>
  run logDebug "Pre-loaded nodes and minipools"
        [zap_Int "nodes" (Z.of_nat (length nodes));
         zap_Int "minipools" minipoolCount] then
  (* Listen for updates *)
  let* _ := ecEventsConnect w opts in
  ret None
  end
  end
  end
  end
  end
  end
  end
  end.

(** [Deinit] shuts down this ExecutionLayer: the stored callback unsubscribes
    from the two subscriptions and writes its line. Closing the channels and
    waiting for the goroutine are not part of the embedding. *)
Definition Deinit : M unit :=
  let* cb := gets ethclientShutdownCb in
  match cb with
  | None => ret tt
  | Some (sub, newHeadSub) =>
      run modify (with_shutdown true) then
      run emit (EUnsubscribe sub) then
      run emit (EUnsubscribe newHeadSub) then
      logDebug "Unsubscribed from EL events" []
  end.

(** ** The read path *)

(** [ValidatorFeeRecipient] returns the expected fee recipient for a
    validator, or nil if the validator is "unknown". If the queryNodeAddr is
    not nil and the validator is a minipool but isn't owned by that node,
    (nil, true) is returned. *)
Definition ValidatorFeeRecipient (pubkey : ValidatorPubkey)
    (queryNodeAddr : option Address) : M (option Address * bool) :=
  let* minipools := gets minipoolIndex in
  match minipools !! pubkey with
  | None =>
      (* Validator (hopefully) isn't a minipool *)
      ret (None, false)
  | Some nodeAddr =>
      if match queryNodeAddr with
         | Some q => negb (q =? nodeAddr)
         | None => false
         end
      then ret (None, true)
      else
        let* nodes := gets nodeIndex in
        match nodes !! nodeAddr with
        | None =>
            (* Validator was a minipool, but we don't have a node record for
               it. This is bad. *)
            run logError "Validator was in the minipool index, but not the node index"
                  [zap_String "pubkey" pubkey; zap_String "node" nodeAddr] then
            ret (None, false)
        | Some ptr =>
            let* nodeInfo := deref ptr in
            if inSmoothingPool nodeInfo then
              let* sp := contractAddr smoothingPool in
              ret (Some sp, false)
            else
              ret (Some (feeDistributor nodeInfo), false)
        end
  end.

(** ** Concrete states and worlds used by the examples *)

Module Fixture.

Definition N1 : Address := 0x1111.
Definition N2 : Address := 0x2222.
Definition F1 : Address := 0xf1.
Definition F2 : Address := 0xf2.
Definition SP : Address := 0x5b.
Definition NM : Address := 0xa1.
Definition MM : Address := 0xa2.
Definition MP1 : Address := 0xb1.
Definition P1 : ValidatorPubkey := 0xabc1.
Definition P2 : ValidatorPubkey := 0xabc2.

(** The data of a [NodeSmoothingPoolStateChanged] log whose boolean is
    true: the 32 bytes of the integer 1. *)
Definition abi_true : list byte := repeat x00%byte 31 ++ [x01%byte].

(** A world in which every call succeeds: one node [N1], outside the
    smoothing pool, with the minipool [P1]; the head stays at block 100;
    no logs. *)
Definition calm : World :=
  {| Dial := fun _ _ => None;
     NewRocketPool := fun _ _ => None;
     HeaderByNumber := fun _ => Ok 100;
     GetContract := fun _ name _ =>
       Ok {| ContractAddress :=
               if String.eqb name "rocketNodeManager" then NM
               else if String.eqb name "rocketMinipoolManager" then MM
               else SP |};
     GetNodes := fun _ _ => Ok [N1];
     GetSmoothingPoolRegistrationState := fun _ _ _ => Ok false;
     GetDistributorAddress := fun _ a _ => Ok (if a =? N1 then F1 else F2);
     GetNodeMinipools := fun _ _ _ => Ok [P1];
     GetMinipoolDetails := fun _ _ _ => Ok P2;
     FilterLogs := fun _ _ => Ok [];
     SubscribeFilterLogs := fun _ _ => Ok 1%nat;
     SubscribeNewHead := fun _ => Ok 2%nat |}.

(** The state [Init] leaves in the calm world. *)
Definition loaded : ExecutionLayer :=
  Eval vm_compute in final (Init calm (NewExecutionLayer "ws://ec" "0x00")).

(** The same state, with [N1] opted in to the smoothing pool. *)
Definition pooled : ExecutionLayer :=
  Eval vm_compute in with_heap [{| inSmoothingPool := true; feeDistributor := F1 |}] loaded.

(** The same state, with the node record of [N1] lost. *)
Definition orphaned : ExecutionLayer :=
  Eval vm_compute in with_nodeIndex ∅ loaded.

End Fixture.


(** ** ForEachNode *)

(** [sync.Map.Range]: calls [f] sequentially for each key and value present
    in the map; if [f] returns false, range stops the iteration. The closure
    works on a state [S] of its own. *)
Fixpoint Range {K V St : Type} (entries : list (K * V)) (f : K -> V -> St -> bool * St)
    (s : St) : St :=
  match entries with
  | [] => s
  | (k, v) :: rest =>
      let (continue, s') := f k v s in
      if continue then Range rest f s' else s'
  end.

(** [ForEachNode] calls the provided closure with the address of every rocket
    pool node the ExecutionLayer has observed. *)
Definition ForEachNode {St : Type} (closure : Address -> St -> bool * St)
    (e : ExecutionLayer) (s : St) : St :=
  Range (map_to_list (nodeIndex e)) (fun k _ => closure k) s.
(** ** Notions the statements use *)

(** The mismatch flag an outcome of [ValidatorFeeRecipient] carries. *)
Definition mismatch (o : outcome (option Address * bool)) : Prop :=
  exists r e', o = Returned (r, true) e'.

(** What a reader of the node index sees under an address: the record behind
    the stored pointer. *)
Definition nodeRecord (e : ExecutionLayer) (a : Address) : option nodeInfo :=
  match nodeIndex e !! a with
  | Some ptr => heap e !! ptr
  | None => None
  end.

Module NodeEvents.
(** A [NodeRegistered] log of the node manager for node [N1], and a
    [NodeSmoothingPoolStateChanged] log (data 1: opted in) for node [N2]. *)
Definition registered_N1 : Log :=
  {| LogAddress := Fixture.NM;
     Topics := [Keccak256Hash_NodeRegistered; Fixture.N1];
     Data := []; BlockNumber := 101 |}.
Definition changed_N2 : Log :=
  {| LogAddress := Fixture.NM;
     Topics := [Keccak256Hash_NodeSmoothingPoolStateChanged; Fixture.N2];
     Data := Fixture.abi_true; BlockNumber := 101 |}.
End NodeEvents.

(** What a computation appends to the trace satisfies [P]. *)
Definition emits_at {A} (P : Effect -> Prop) (m : M A) (e : ExecutionLayer) : Prop :=
  exists new, trace (final (m e)) = trace e ++ new /\ Forall P new.

Definition emits {A} (P : Effect -> Prop) (m : M A) : Prop :=
  forall e, emits_at P m e.

(** An effect that is not a historical log query, a subscription or a sleep:
    the handlers make only read calls and write log lines. *)
Definition handler_effect (x : Effect) : Prop :=
  match x with
  | ELog _ _ _ | EGetDistributorAddress _ _ | EGetMinipoolDetails _ _ => True
  | _ => False
  end.

(** The query of a back-fill: the logs of the three subscribed topics on the
    two contracts, in the blocks from [start] to [stop], both included. *)
Definition subscribedLogs (e : ExecutionLayer) (mm nm : Address) (start stop : Z)
    : FilterQuery :=
  {| Addresses := [mm; nm];
     FromBlock := Some start;
     ToBlock := Some stop;
     QueryTopics := [[nodeRegisteredTopic e; smoothingPoolStatusChangedTopic e;
                      minipoolLaunchedTopic e]] |}.

(** What [e'] has appended to the trace of [e]. *)
Definition since (e e' : ExecutionLayer) : list Effect :=
  drop (length (trace e)) (trace e').

Module Backfill.
(** The head has moved to block 101, whose one log registers [N2]. *)
Definition registered_N2 : Log :=
  {| LogAddress := Fixture.NM;
     Topics := [Keccak256Hash_NodeRegistered; Fixture.N2];
     Data := []; BlockNumber := 101 |}.
Definition ahead : World :=
  {| Dial := Dial Fixture.calm;
     NewRocketPool := NewRocketPool Fixture.calm;
     HeaderByNumber := fun _ => Ok 101;
     GetContract := GetContract Fixture.calm;
     GetNodes := GetNodes Fixture.calm;
     GetSmoothingPoolRegistrationState :=
       GetSmoothingPoolRegistrationState Fixture.calm;
     GetDistributorAddress := GetDistributorAddress Fixture.calm;
     GetNodeMinipools := GetNodeMinipools Fixture.calm;
     GetMinipoolDetails := GetMinipoolDetails Fixture.calm;
     FilterLogs := fun _ _ => Ok [registered_N2];
     SubscribeFilterLogs := SubscribeFilterLogs Fixture.calm;
     SubscribeNewHead := SubscribeNewHead Fixture.calm |}.
End Backfill.

Module Minipools.
(** A [MinipoolCreated] log of the minipool manager, for the minipool
    contract [MP1] of node [N1], in block 104; and a world in which the
    minipool's details cannot be fetched. *)
Definition created : Log :=
  {| LogAddress := Fixture.MM;
     Topics := [Keccak256Hash_MinipoolCreated; Fixture.MP1; Fixture.N1];
     Data := []; BlockNumber := 104 |}.
Definition detailsDown : World :=
  {| Dial := Dial Fixture.calm;
     NewRocketPool := NewRocketPool Fixture.calm;
     HeaderByNumber := fun _ => Ok 110;
     GetContract := GetContract Fixture.calm;
     GetNodes := GetNodes Fixture.calm;
     GetSmoothingPoolRegistrationState :=
       GetSmoothingPoolRegistrationState Fixture.calm;
     GetDistributorAddress := GetDistributorAddress Fixture.calm;
     GetNodeMinipools := GetNodeMinipools Fixture.calm;
     GetMinipoolDetails := fun _ _ _ => Fail "execution reverted";
     FilterLogs := fun _ _ => Ok [];
     SubscribeFilterLogs := SubscribeFilterLogs Fixture.calm;
     SubscribeNewHead := SubscribeNewHead Fixture.calm |}.
End Minipools.

Module Rewind.
(** The goroutine as [ecEventsConnect] starts it, a header for block 105,
    and a log of block 104 that was still queued behind it. *)
Definition started : Locals :=
  {| logSubscription := 1; newHeadSubscription := 2;
     noMoreEvents := false; noMoreHeaders := false |}.
Definition late : Log :=
  {| LogAddress := Fixture.NM;
     Topics := [Keccak256Hash_NodeRegistered; Fixture.N2];
     Data := []; BlockNumber := 104 |}.
Definition at105 : ExecutionLayer :=
  Eval vm_compute in
    final (iteration Fixture.calm started (NewHeadersRecv (Some 105)) Fixture.loaded).
End Rewind.

(** The reconnection attempts a trace records: its calls to
    [SubscribeFilterLogs]. *)
Fixpoint attempts (t : list Effect) : nat :=
  match t with
  | [] => 0
  | ESubscribeFilterLogs _ :: t' => S (attempts t')
  | _ :: t' => attempts t'
  end.

(** The durations a trace sleeps for, in order. *)
Fixpoint sleeps (t : list Effect) : list Z :=
  match t with
  | [] => []
  | ESleep d :: t' => d :: sleeps t'
  | _ :: t' => sleeps t'
  end.

(** An effect that is neither a log subscription nor a sleep. *)
Definition quiet (x : Effect) : Prop :=
  match x with
  | ESubscribeFilterLogs _ | ESleep _ => False
  | _ => True
  end.

(** The state the back-fill of a reconnection starts in: attempt [i + 1] has
    subscribed to logs ([s]) and to headers ([h]) from the state [e]. *)
Definition reconnected (i : Z) (s h : Subscription) (e : ExecutionLayer)
    : ExecutionLayer :=
  with_ethclientShutdownCb (Some (s, h))
    (with_trace
       (trace e ++
        [ELog WarnLevel "Attempting to reconnect" [zap_Int "attempt" (i + 1)];
         ESubscribeFilterLogs (query e);
         ELog WarnLevel "Reconnected" [zap_Int "attempt" (i + 1)];
         ESubscribeNewHead]) e).

(** The spec's reading of the retry policy: the wait after attempt k + 1 is
    5 (k + 1) seconds. *)
Definition waits_five_seconds_per_attempt (w : World) (err : error)
    (subs : Subscription * Subscription) (e : ExecutionLayer) : Prop :=
  forall k d,
    sleeps (since e (final (handleSubscriptionError w err subs e))) !! k = Some d ->
    d = 5 * (Z.of_nat k + 1) * Second.

(** The spec's reading of a failed header re-subscription: the attempt
    counts as failed and another attempt follows. *)
Definition retries_after_header_failure (w : World) (err : error)
    (subs : Subscription * Subscription) (e : ExecutionLayer) : Prop :=
  forall s herr,
    SubscribeFilterLogs w (length (trace e) + 2)%nat (query e) = Ok s ->
    SubscribeNewHead w (length (trace e) + 4)%nat = Fail herr ->
    (2 <= attempts (since e (final (handleSubscriptionError w err subs e))))%nat.

Module Outage.
(** The execution client refuses every log subscription. *)
Definition down : World :=
  {| Dial := Dial Fixture.calm;
     NewRocketPool := NewRocketPool Fixture.calm;
     HeaderByNumber := HeaderByNumber Fixture.calm;
     GetContract := GetContract Fixture.calm;
     GetNodes := GetNodes Fixture.calm;
     GetSmoothingPoolRegistrationState :=
       GetSmoothingPoolRegistrationState Fixture.calm;
     GetDistributorAddress := GetDistributorAddress Fixture.calm;
     GetNodeMinipools := GetNodeMinipools Fixture.calm;
     GetMinipoolDetails := GetMinipoolDetails Fixture.calm;
     FilterLogs := FilterLogs Fixture.calm;
     SubscribeFilterLogs := fun _ _ => Fail "connection refused";
     SubscribeNewHead := SubscribeNewHead Fixture.calm |}.

(** Log subscriptions succeed; header subscriptions fail up to time 22 and
    succeed from then on. *)
Definition headersLate : World :=
  {| Dial := Dial Fixture.calm;
     NewRocketPool := NewRocketPool Fixture.calm;
     HeaderByNumber := HeaderByNumber Fixture.calm;
     GetContract := GetContract Fixture.calm;
     GetNodes := GetNodes Fixture.calm;
     GetSmoothingPoolRegistrationState :=
       GetSmoothingPoolRegistrationState Fixture.calm;
     GetDistributorAddress := GetDistributorAddress Fixture.calm;
     GetNodeMinipools := GetNodeMinipools Fixture.calm;
     GetMinipoolDetails := GetMinipoolDetails Fixture.calm;
     FilterLogs := FilterLogs Fixture.calm;
     SubscribeFilterLogs := fun _ _ => Ok 3%nat;
     SubscribeNewHead := fun t => if (t <=? 22)%nat then Fail "timeout" else Ok 4%nat |}.

(** Subscriptions succeed, the header query of the back-fill does not. *)
Definition headerDown : World :=
  {| Dial := Dial Fixture.calm;
     NewRocketPool := NewRocketPool Fixture.calm;
     HeaderByNumber := fun _ => Fail "timeout";
     GetContract := GetContract Fixture.calm;
     GetNodes := GetNodes Fixture.calm;
     GetSmoothingPoolRegistrationState :=
       GetSmoothingPoolRegistrationState Fixture.calm;
     GetDistributorAddress := GetDistributorAddress Fixture.calm;
     GetNodeMinipools := GetNodeMinipools Fixture.calm;
     GetMinipoolDetails := GetMinipoolDetails Fixture.calm;
     FilterLogs := FilterLogs Fixture.calm;
     SubscribeFilterLogs := fun _ _ => Ok 3%nat;
     SubscribeNewHead := fun _ => Ok 4%nat |}.
End Outage.

(** A state with its trace and highestBlock forgotten; two states are alike
    when they differ in nothing else. *)
Definition erase (e : ExecutionLayer) : ExecutionLayer :=
  with_trace [] (with_highestBlock None e).

Definition alike (e1 e2 : ExecutionLayer) : Prop := erase e1 = erase e2.

(** Two outcomes of one kind, with the same value, in states that are alike. *)
Definition alike_outcomes {A} (o1 o2 : outcome A) : Prop :=
  match o1, o2 with
  | Returned a1 e1, Returned a2 e2 => a1 = a2 /\ alike e1 e2
  | Panicked m1 e1, Panicked m2 e2 => m1 = m2 /\ alike e1 e2
  | _, _ => False
  end.

(** A computation that reads neither the trace nor highestBlock. *)
Definition respects {A} (m : M A) : Prop :=
  forall e1 e2, alike e1 e2 -> alike_outcomes (m e1) (m e2).

(** The read calls of the handlers answer the same at all times. *)
Definition time_invariant (w : World) : Prop :=
  forall t t' a o,
    GetDistributorAddress w t a o = GetDistributorAddress w t' a o
    /\ GetMinipoolDetails w t a o = GetMinipoolDetails w t' a o.

(** Logs as the goroutine receives them from the events channel. *)
Definition live (events : list Log) : list Select :=
  map (fun event => EventsRecv (Some event)) events.

Module Replay.
(** Node [N2] opts in to the smoothing pool in block 102. *)
Definition opted_in_N2 : Log :=
  {| LogAddress := Fixture.NM;
     Topics := [Keccak256Hash_NodeSmoothingPoolStateChanged; Fixture.N2];
     Data := Fixture.abi_true; BlockNumber := 102 |}.
End Replay.

Module Startup.
(** The header query answers once, for the snapshot, and then no more. *)
Definition backfillDown : World :=
  {| Dial := Dial Fixture.calm;
     NewRocketPool := NewRocketPool Fixture.calm;
     HeaderByNumber := fun t => if (t <=? 2)%nat then Ok 100 else Fail "timeout";
     GetContract := GetContract Fixture.calm;
     GetNodes := GetNodes Fixture.calm;
     GetSmoothingPoolRegistrationState :=
       GetSmoothingPoolRegistrationState Fixture.calm;
     GetDistributorAddress := GetDistributorAddress Fixture.calm;
     GetNodeMinipools := GetNodeMinipools Fixture.calm;
     GetMinipoolDetails := GetMinipoolDetails Fixture.calm;
     FilterLogs := FilterLogs Fixture.calm;
     SubscribeFilterLogs := SubscribeFilterLogs Fixture.calm;
     SubscribeNewHead := SubscribeNewHead Fixture.calm |}.
Definition cold : ExecutionLayer := NewExecutionLayer "ws://ec" "0x00".
End Startup.


(** * Further properties: definitions *)

(** A relation that holds between the state a computation starts in and the
    state it ends in, whether it returns or panics. *)
Definition steps_to {A} (R : ExecutionLayer -> ExecutionLayer -> Prop) (m : M A)
    : Prop :=
  forall e, R e (final (m e)).

(** No key of either index is lost. *)
Definition keys_kept (e e' : ExecutionLayer) : Prop :=
  (forall p, is_Some (minipoolIndex e !! p) -> is_Some (minipoolIndex e' !! p))
  /\ (forall a, is_Some (nodeIndex e !! a) -> is_Some (nodeIndex e' !! a)).

(** The pointers of the node index are sound: each is a location of the heap,
    and no two addresses hold the same one. *)
Definition sound (e : ExecutionLayer) : Prop :=
  (forall a ptr, nodeIndex e !! a = Some ptr -> (ptr < length (heap e))%nat)
  /\ (forall a b ptr, nodeIndex e !! a = Some ptr -> nodeIndex e !! b = Some ptr ->
                      a = b).

(** A record that has been allocated and is not in the node index yet. *)
Definition pending (ptr : loc) (e : ExecutionLayer) : Prop :=
  sound e /\ (ptr < length (heap e))%nat
  /\ forall a, nodeIndex e !! a <> Some ptr.

(** A property of states that a step keeps. *)
Definition keeps (I : ExecutionLayer -> Prop) (e e' : ExecutionLayer) : Prop :=
  I e -> I e'.

(** The shutdown callback and the goroutine are those of the state [e]. *)
Definition same_callback (e e' : ExecutionLayer) : Prop :=
  ethclientShutdownCb e' = ethclientShutdownCb e /\ ingestor e' = ingestor e.

(** A computation that, when it returns a value that [V] holds of, has only
    made steps of [R]. *)
Definition guarded {A} (V : A -> Prop)
    (R : ExecutionLayer -> ExecutionLayer -> Prop) (m : M A) : Prop :=
  forall e a e', m e = Returned a e' -> V a -> R e e'.

(** The effects of the snapshot: dialling, the header query, the reads of the
    contracts, and log lines. *)
Definition snapshot_effect (x : Effect) : Prop :=
  match x with
  | ELog _ _ _ | EDial _ | ENewRocketPool _ | EHeaderByNumber
  | EGetContract _ _ | EGetNodes _ | EGetSmoothingPoolRegistrationState _ _
  | EGetDistributorAddress _ _ | EGetNodeMinipools _ _ => True
  | _ => False
  end.

(** The state [e'] is [e] after effects of the snapshot only: not connected,
    no goroutine, highestBlock as it was. *)
Definition only_snapshot (e e' : ExecutionLayer) : Prop :=
  (exists new, trace e' = trace e ++ new /\ Forall snapshot_effect new)
  /\ same_callback e e' /\ highestBlock e' = highestBlock e.

(** The goroutine's variables after it has received the logs [events]. *)
Definition after_logs (l : Locals) (events : list Log) : Locals :=
  match events with
  | [] => l
  | _ :: _ => {| logSubscription := logSubscription l;
                 newHeadSubscription := newHeadSubscription l;
                 noMoreEvents := false; noMoreHeaders := noMoreHeaders l |}
  end.

(** A computation that, when it returns a value that [V] holds of, ends in a
    state that [Q] holds of. *)
Definition ensures {A} (V : A -> Prop) (Q : ExecutionLayer -> Prop) (m : M A)
    : Prop :=
  forall e a e', m e = Returned a e' -> V a -> Q e'.

(** The goroutine runs on the subscriptions that the shutdown callback
    unsubscribes, and starting it was the last thing done. *)
Definition connected (e : ExecutionLayer) : Prop :=
  exists sub newHeadSub t,
    ethclientShutdownCb e = Some (sub, newHeadSub)
    /\ ingestor e = Some (sub, newHeadSub)
    /\ trace e = t ++ [EGo sub newHeadSub].

(** The state [Init] leaves when the log subscription fails: the snapshot is
    loaded, nothing is connected. *)
Definition unconnected : ExecutionLayer :=
  Eval vm_compute in final (Init Outage.down Startup.cold).

(** A closure that also notes the addresses it is called with. *)
Definition noting {St : Type} (closure : Address -> St -> bool * St)
    : Address -> St * list Address -> bool * (St * list Address) :=
  fun a st =>
    let (continue, s') := closure a (fst st) in
    (continue, (s', snd st ++ [a])).
(** * Properties *)

Example loaded_shape :
  minipoolIndex Fixture.loaded !! Fixture.P1 = Some Fixture.N1
  /\ nodeIndex Fixture.loaded !! Fixture.N1 = Some 0%nat
  /\ heap Fixture.loaded = [{| inSmoothingPool := false; feeDistributor := Fixture.F1 |}]
  /\ highestBlock Fixture.loaded = Some 100
  /\ ingestor Fixture.loaded = Some (1%nat, 2%nat).
Proof. vm_compute. repeat split; reflexivity. Qed.

(** ** The read path *)

Lemma deref_Some (e : ExecutionLayer) (ptr : loc) (ni : nodeInfo) :
  heap e !! ptr = Some ni -> deref ptr e = Returned ni e.
Proof. intros H. unfold deref. now rewrite H. Qed.

Lemma contractAddr_Some (f : ExecutionLayer -> option Contract) (e : ExecutionLayer) c :
  f e = Some c -> contractAddr f e = Returned (ContractAddress c) e.
Proof. intros H. unfold contractAddr, bind, gets. now rewrite H. Qed.

(** C1: the five rows of the table of [ValidatorFeeRecipient], and the
    mismatch flag. An unknown validator gives (nil, false); a claimed owner
    other than the recorded node gives (nil, true); a recorded node without
    a node record gives (nil, false), after an error line; a node in the
    smoothing pool gives the smoothing pool's address; any other node its
    fee distributor; and the flag is true exactly when the key is a known
    minipool and the query names a node other than its owner. *)
Theorem ValidatorFeeRecipient_table
    (e : ExecutionLayer) (p : ValidatorPubkey) (q : option Address) :
  (minipoolIndex e !! p = None ->
     ValidatorFeeRecipient p q e = Returned (None, false) e)
  /\ (forall n q', minipoolIndex e !! p = Some n -> q = Some q' -> q' <> n ->
        ValidatorFeeRecipient p q e = Returned (None, true) e)
  /\ (forall n, minipoolIndex e !! p = Some n -> q = Some n \/ q = None ->
        nodeIndex e !! n = None ->
        ValidatorFeeRecipient p q e =
        Returned (None, false)
          (with_trace
             (trace e ++
              [ELog ErrorLevel
                 "Validator was in the minipool index, but not the node index"
                 [zap_String "pubkey" p; zap_String "node" n]]) e))
  /\ (forall n ptr ni sp, minipoolIndex e !! p = Some n ->
        q = Some n \/ q = None ->
        nodeIndex e !! n = Some ptr -> heap e !! ptr = Some ni ->
        smoothingPool e = Some sp ->
        inSmoothingPool ni = true ->
        ValidatorFeeRecipient p q e = Returned (Some (ContractAddress sp), false) e)
  /\ (forall n ptr ni, minipoolIndex e !! p = Some n ->
        q = Some n \/ q = None ->
        nodeIndex e !! n = Some ptr -> heap e !! ptr = Some ni ->
        inSmoothingPool ni = false ->
        ValidatorFeeRecipient p q e = Returned (Some (feeDistributor ni), false) e)
  /\ (mismatch (ValidatorFeeRecipient p q e) <->
      exists n q', minipoolIndex e !! p = Some n /\ q = Some q' /\ q' <> n).
Proof.
  assert (Hown : forall n, q = Some n \/ q = None ->
            match q with Some q' => negb (q' =? n) | None => false end = false).
  { intros n [-> | ->]; [now rewrite Z.eqb_refl | reflexivity]. }
  unfold ValidatorFeeRecipient, mismatch.
  split; [| split; [| split; [| split; [| split]]]].
  - intros H. cbn. now rewrite H.
  - intros n q' H Hq Hne. subst q. apply Z.eqb_neq in Hne. cbn. rewrite H. cbn. now rewrite Hne.
  - intros n H Hq Hn. cbn. rewrite H, (Hown n Hq). cbn. now rewrite Hn.
  - intros n ptr ni sp H Hq Hn Hp Hsp Hin. cbn. rewrite H, (Hown n Hq). cbn.
    rewrite Hn. unfold bind. rewrite (deref_Some _ _ _ Hp), Hin.
    now rewrite (contractAddr_Some _ _ _ Hsp).
  - intros n ptr ni H Hq Hn Hp Hin. cbn. rewrite H, (Hown n Hq). cbn.
    rewrite Hn. unfold bind. now rewrite (deref_Some _ _ _ Hp), Hin.
  - split.
    + cbn. intros (r & e' & H).
      destruct (minipoolIndex e !! p) as [n |] eqn:Hm; [| discriminate].
      destruct q as [q' |].
      * destruct (q' =? n) eqn:Hq; [| apply Z.eqb_neq in Hq; eauto].
        exfalso. cbn in H.
        destruct (nodeIndex e !! n) as [ptr |]; cbn in H; [| discriminate].
        unfold bind, deref in H.
        destruct (heap e !! ptr) as [ni |]; [| discriminate].
        destruct (inSmoothingPool ni); [| discriminate].
        unfold contractAddr, bind, gets in H.
        destruct (smoothingPool e); discriminate.
      * exfalso. cbn in H.
        destruct (nodeIndex e !! n) as [ptr |]; cbn in H; [| discriminate].
        unfold bind, deref in H.
        destruct (heap e !! ptr) as [ni |]; [| discriminate].
        destruct (inSmoothingPool ni); [| discriminate].
        unfold contractAddr, bind, gets in H.
        destruct (smoothingPool e); discriminate.
    + intros (n & q' & Hm & -> & Hne). apply Z.eqb_neq in Hne. cbn.
      rewrite Hm. cbn. rewrite Hne. cbn. eauto.
Qed.

Lemma ValidatorFeeRecipient_table_witness :
  ValidatorFeeRecipient Fixture.P2 None Fixture.loaded
    = Returned (None, false) Fixture.loaded
  /\ ValidatorFeeRecipient Fixture.P1 (Some Fixture.N2) Fixture.loaded
    = Returned (None, true) Fixture.loaded
  /\ value (ValidatorFeeRecipient Fixture.P1 None Fixture.orphaned)
    = Some (None, false)
  /\ ValidatorFeeRecipient Fixture.P1 None Fixture.pooled
    = Returned (Some Fixture.SP, false) Fixture.pooled
  /\ ValidatorFeeRecipient Fixture.P1 (Some Fixture.N1) Fixture.loaded
    = Returned (Some Fixture.F1, false) Fixture.loaded.
Proof.
  split; [| split; [| split; [| split]]].
  - apply (ValidatorFeeRecipient_table Fixture.loaded Fixture.P2 None).
    vm_compute. reflexivity.
  - destruct (ValidatorFeeRecipient_table Fixture.loaded Fixture.P1 (Some Fixture.N2))
      as (_ & H & _).
    apply (H Fixture.N1 Fixture.N2); [vm_compute; reflexivity | reflexivity |].
    discriminate.
  - destruct (ValidatorFeeRecipient_table Fixture.orphaned Fixture.P1 None)
      as (_ & _ & H & _).
    rewrite (H Fixture.N1); [reflexivity | vm_compute; reflexivity | now right
                            | vm_compute; reflexivity].
  - destruct (ValidatorFeeRecipient_table Fixture.pooled Fixture.P1 None)
      as (_ & _ & _ & H & _).
    apply (H Fixture.N1 0%nat {| inSmoothingPool := true; feeDistributor := Fixture.F1 |}
             {| ContractAddress := Fixture.SP |});
      first [vm_compute; reflexivity | now right].
  - destruct (ValidatorFeeRecipient_table Fixture.loaded Fixture.P1 (Some Fixture.N1))
      as (_ & _ & _ & _ & H & _).
    apply (H Fixture.N1 0%nat {| inSmoothingPool := false; feeDistributor := Fixture.F1 |});
      first [vm_compute; reflexivity | now left].
Defined.

(** The scenarios of the read path: a solo node, a claimed owner that is not
    the owner, and the node after it has opted in. *)
Example read_path_scenarios :
  value (ValidatorFeeRecipient Fixture.P1 None Fixture.loaded)
    = Some (Some Fixture.F1, false)
  /\ value (ValidatorFeeRecipient Fixture.P1 (Some Fixture.N1) Fixture.loaded)
    = Some (Some Fixture.F1, false)
  /\ value (ValidatorFeeRecipient Fixture.P1 (Some Fixture.N2) Fixture.loaded)
    = Some (None, true)
  /\ value ((run handleEvent Fixture.calm
                  {| LogAddress := Fixture.NM;
                     Topics := [Keccak256Hash_NodeSmoothingPoolStateChanged; Fixture.N1];
                     Data := Fixture.abi_true; BlockNumber := 101 |} then
             ValidatorFeeRecipient Fixture.P1 None) Fixture.loaded)
    = Some (Some Fixture.SP, false).
Proof. vm_compute. repeat split; reflexivity. Qed.

(** ** What the handlers append to the trace *)

Section Emits.
Variable P : Effect -> Prop.

Lemma emits_silent {A} (m : M A) (e : ExecutionLayer) :
  trace (final (m e)) = trace e -> emits_at P m e.
Proof. intros H. exists []. rewrite H, app_nil_r. auto. Qed.

Lemma emits_ret {A} (a : A) : emits P (ret a).
Proof. intros e. now apply emits_silent. Qed.

Lemma emits_panic {A} (msg : string) : emits P (@panic A msg).
Proof. intros e. now apply emits_silent. Qed.

Lemma emits_gets {A} (f : ExecutionLayer -> A) : emits P (gets f).
Proof. intros e. now apply emits_silent. Qed.

Lemma emits_modify (f : ExecutionLayer -> ExecutionLayer) :
  (forall e, trace (f e) = trace e) -> emits P (modify f).
Proof. intros H e. apply emits_silent. apply H. Qed.

Lemma emits_bind_at {A B} (m : M A) (k : A -> M B) (e : ExecutionLayer) :
  emits_at P m e ->
  (forall a e', m e = Returned a e' -> emits_at P (k a) e') ->
  emits_at P (bind m k) e.
Proof.
  intros (new1 & H1 & F1) Hk. unfold emits_at, bind.
  destruct (m e) as [a e' | msg e'] eqn:Hm; cbn in H1.
  - destruct (Hk a e' eq_refl) as (new2 & H2 & F2).
    exists (new1 ++ new2). rewrite H2, H1, app_assoc. split; [reflexivity |].
    now apply Forall_app.
  - exists new1. auto.
Qed.

Lemma emits_bind {A B} (m : M A) (k : A -> M B) :
  emits P m -> (forall a, emits P (k a)) -> emits P (bind m k).
Proof. intros Hm Hk e. apply emits_bind_at; [apply Hm | intros; apply Hk]. Qed.

Lemma emits_emit (x : Effect) : P x -> emits P (emit x).
Proof. intros Hx e. exists [x]. split; [reflexivity | auto]. Qed.

Lemma emits_call {A} (x : Effect) (answer : nat -> A) : P x -> emits P (call x answer).
Proof. intros Hx e. exists [x]. split; [reflexivity | auto]. Qed.

Lemma emits_alloc (ni : nodeInfo) : emits P (alloc ni).
Proof. intros e. now apply emits_silent. Qed.

Lemma emits_deref (ptr : loc) : emits P (deref ptr).
Proof. intros e. apply emits_silent. unfold deref. now destruct (heap e !! ptr). Qed.

Lemma emits_assign (ptr : loc) (ni : nodeInfo) : emits P (assign ptr ni).
Proof. intros e. apply emits_silent. unfold assign. now destruct (heap e !! ptr). Qed.

Lemma emits_topicAt (event : Log) (i : nat) : emits P (topicAt event i).
Proof. intros e. apply emits_silent. unfold topicAt. now destruct (Topics event !! i). Qed.

Lemma emits_contractAddr (f : ExecutionLayer -> option Contract) :
  emits P (contractAddr f).
Proof.
  intros e. apply emits_silent. unfold contractAddr, bind, gets.
  now destruct (f e).
Qed.

Lemma emits_forM_ {A} (f : A -> M unit) (l : list A) :
  (forall x, emits P (f x)) -> emits P (forM_ f l).
Proof.
  intros Hf. induction l as [| x l IH]; cbn.
  - apply emits_ret.
  - apply emits_bind; auto.
Qed.
End Emits.

Ltac emits_step :=
  first
    [ apply emits_bind; [| intros ?]
    | apply emits_ret | apply emits_panic | apply emits_gets
    | apply emits_emit; exact I | apply emits_call; exact I
    | apply emits_alloc | apply emits_deref | apply emits_assign
    | apply emits_topicAt | apply emits_contractAddr
    | apply emits_modify; reflexivity
    | match goal with |- emits _ (if ?b then _ else _) => destruct b end
    | match goal with |- emits _ (match ?x with _ => _ end) => destruct x end ].

Lemma handleNodeEvent_emits (w : World) (event : Log) :
  emits handler_effect (handleNodeEvent w event).
Proof.
  unfold handleNodeEvent, nodeIndex_Store, set_feeDistributor,
    set_inSmoothingPool, logDebug, logWarn.
  repeat emits_step.
Qed.

Lemma handleMinipoolEvent_emits (w : World) (event : Log) :
  emits handler_effect (handleMinipoolEvent w event).
Proof.
  unfold handleMinipoolEvent, minipoolIndex_Store, logDebug, logWarn.
  repeat emits_step.
Qed.

Lemma handleEvent_emits (w : World) (event : Log) :
  emits handler_effect (handleEvent w event).
Proof.
  unfold handleEvent, logWarn.
  repeat first [ apply handleNodeEvent_emits | apply handleMinipoolEvent_emits
               | emits_step ].
Qed.

(** ** Node events *)

Lemma lookup_snoc {A} (l : list A) (x : A) : (l ++ [x]) !! length l = Some x.
Proof. now apply list_lookup_middle. Qed.

Lemma insert_snoc {A} (l : list A) (x y : A) :
  <[length l := y]> (l ++ [x]) = l ++ [y].
Proof. rewrite insert_app_r_alt by lia. now rewrite Nat.sub_diag. Qed.

(** C9: a [NodeRegistered] event stores a fresh zero record under the node's
    address, whatever was recorded there before; nothing else in the two
    indices changes. *)
Theorem NodeRegistered_overwrites (w : World) (e : ExecutionLayer) (event : Log)
    (topic1 : Hash) (rest : list Hash) :
  Topics event = nodeRegisteredTopic e :: topic1 :: rest ->
  exists e',
    handleNodeEvent w event e = Returned tt e'
    /\ nodeRecord e' (BytesToAddress topic1)
       = Some {| inSmoothingPool := false; feeDistributor := 0 |}
    /\ (forall old, nodeIndex e !! BytesToAddress topic1 = Some old ->
          (old < length (heap e))%nat ->
          nodeIndex e' !! BytesToAddress topic1 <> Some old)
    /\ (forall a, a <> BytesToAddress topic1 -> nodeIndex e' !! a = nodeIndex e !! a)
    /\ minipoolIndex e' = minipoolIndex e.
Proof.
  intros HT. unfold handleNodeEvent, topicAt. rewrite HT. cbn.
  rewrite Z.eqb_refl. cbn.
  eexists. split; [reflexivity |]. unfold nodeRecord. cbn.
  rewrite lookup_insert_eq. cbn. rewrite lookup_snoc.
  split; [reflexivity |]. split; [| split; [| reflexivity]].
  - intros old _ Hlt Heq. injection Heq as Heq. lia.
  - intros a Ha. now rewrite lookup_insert_ne.
Qed.

Lemma NodeRegistered_overwrites_witness :
  nodeRecord Fixture.pooled Fixture.N1
    = Some {| inSmoothingPool := true; feeDistributor := Fixture.F1 |}
  /\ nodeRecord (final (handleNodeEvent Fixture.calm NodeEvents.registered_N1 Fixture.pooled))
       Fixture.N1
    = Some {| inSmoothingPool := false; feeDistributor := 0 |}.
Proof.
  split; [vm_compute; reflexivity |].
  destruct (NodeRegistered_overwrites Fixture.calm Fixture.pooled
              NodeEvents.registered_N1 Fixture.N1 [])
    as (e' & Hrun & Hrec & _); [vm_compute; reflexivity |].
  rewrite Hrun. exact Hrec.
Defined.

(** C2, as the code has it: a [NodeSmoothingPoolStateChanged] event for a node
    that is not in the node index fills a fresh record but never stores it:
    the node index is unchanged, and a lookup of the address right after the
    handler returns still fails. *)
Theorem StateChanged_unknown_node_not_stored (w : World) (e : ExecutionLayer)
    (event : Log) (topic0 topic1 : Z) (rest : list Z) :
  Topics event = topic0 :: topic1 :: rest ->
  topic0 <> nodeRegisteredTopic e ->
  topic0 = smoothingPoolStatusChangedTopic e ->
  nodeIndex e !! BytesToAddress topic1 = None ->
  exists e',
    handleNodeEvent w event e = Returned tt e'
    /\ nodeIndex e' = nodeIndex e
    /\ nodeIndex e' !! BytesToAddress topic1 = None.
Proof.
  intros HT Hne Heq Habs. unfold handleNodeEvent, topicAt. rewrite HT. cbn.
  apply Z.eqb_neq in Hne. rewrite Hne. cbn. rewrite <- Heq, Z.eqb_refl. cbn.
  rewrite Habs.
  unfold bind, logWarn, logDebug, emit, modify, alloc, call, set_feeDistributor,
    set_inSmoothingPool, deref, assign, bind. cbn.
  rewrite !lookup_snoc. cbn.
  destruct (GetDistributorAddress w _ _ _); cbn;
    repeat (progress (rewrite ?insert_snoc, ?lookup_snoc; cbn));
    (eexists; split; [reflexivity |]); cbn; auto.
Qed.

Lemma StateChanged_unknown_node_not_stored_witness :
  nodeIndex Fixture.loaded !! Fixture.N2 = None
  /\ value (handleNodeEvent Fixture.calm NodeEvents.changed_N2 Fixture.loaded)
     = Some tt
  /\ nodeIndex (final (handleNodeEvent Fixture.calm NodeEvents.changed_N2 Fixture.loaded))
       !! Fixture.N2 = None.
Proof.
  split; [vm_compute; reflexivity |].
  destruct (StateChanged_unknown_node_not_stored Fixture.calm Fixture.loaded
              NodeEvents.changed_N2 Keccak256Hash_NodeSmoothingPoolStateChanged
              Fixture.N2 [])
    as (e' & Hrun & _ & Hnone);
    [vm_compute; reflexivity | discriminate | vm_compute; reflexivity
    | vm_compute; reflexivity |].
  rewrite Hrun. split; [reflexivity | exact Hnone].
Defined.

(** The other branch, for contrast: the state change of a known node is
    written through the pointer the index holds. *)
Example StateChanged_known_node_is_recorded :
  nodeRecord
    (final (handleNodeEvent Fixture.calm
              {| LogAddress := Fixture.NM;
                 Topics := [Keccak256Hash_NodeSmoothingPoolStateChanged; Fixture.N1];
                 Data := Fixture.abi_true; BlockNumber := 101 |}
              Fixture.loaded)) Fixture.N1
  = Some {| inSmoothingPool := true; feeDistributor := Fixture.F1 |}.
Proof. vm_compute. reflexivity. Qed.

(** ** Back-fill *)

Lemma with_trace_with_trace (t t' : list Effect) (e : ExecutionLayer) :
  with_trace t (with_trace t' e) = with_trace t e.
Proof. reflexivity. Qed.

Lemma backfillEvents_no_gap (w : World) (e : ExecutionLayer) (hb stop : Z) :
  highestBlock e = Some hb ->
  HeaderByNumber w (length (trace e)) = Ok stop ->
  stop < hb + 1 ->
  backfillEvents w e =
  Returned None
    (with_trace (trace e ++ [EHeaderByNumber;
                             ELog DebugLevel "No blocks to backfill events from" []]) e).
Proof.
  intros Hhb Hhead Hlt. unfold backfillEvents, bind, gets. rewrite Hhb.
  unfold call. rewrite Hhead. apply Z.ltb_lt in Hlt. rewrite Hlt. cbn.
  now rewrite <- app_assoc.
Qed.

Lemma backfillEvents_gap (w : World) (e : ExecutionLayer) (hb stop : Z)
    (mm nm : Contract) (missedEvents : list Log) :
  highestBlock e = Some hb ->
  rocketMinipoolManager e = Some mm ->
  rocketNodeManager e = Some nm ->
  HeaderByNumber w (length (trace e)) = Ok stop ->
  hb + 1 <= stop ->
  let q := subscribedLogs e (ContractAddress mm) (ContractAddress nm) (hb + 1) stop in
  FilterLogs w (S (length (trace e))) q = Ok missedEvents ->
  backfillEvents w e =
  match forM_ (handleEvent w) missedEvents
          (with_trace (trace e ++ [EHeaderByNumber; EFilterLogs q]) e) with
  | Returned _ e2 =>
      Returned None
        (with_trace
           (trace e2 ++
            [ELog DebugLevel "Backfilled events"
               [zap_Int "events" (Z.of_nat (length missedEvents));
                zap_Uint64 "blocks" (big_Uint64 (stop - (hb + 1) + 1));
                zap_Int64 "start" (big_Int64 (hb + 1));
                zap_Int64 "stop" (big_Int64 stop)]])
           (with_highestBlock (Some stop) e2))
  | Panicked msg e2 => Panicked msg e2
  end.
Proof.
  intros Hhb Hmm Hnm Hhead Hle q Hlogs. unfold backfillEvents, bind, gets.
  rewrite Hhb. unfold call. rewrite Hhead.
  apply Z.ltb_ge in Hle. rewrite Hle.
  unfold contractAddr, bind, gets. cbn. rewrite Hmm. cbn. rewrite Hnm. cbn.
  rewrite length_app, Nat.add_1_r. fold (subscribedLogs e (ContractAddress mm) (ContractAddress nm) (hb + 1) stop).
  fold q. rewrite Hlogs, with_trace_with_trace, <- app_assoc. cbn.
  destruct (forM_ (handleEvent w) missedEvents _); reflexivity.
Qed.

Lemma bind_Returned {A B} (m : M A) (k : A -> M B) (e e' : ExecutionLayer) (b : B) :
  bind m k e = Returned b e' ->
  exists a e1, m e = Returned a e1 /\ k a e1 = Returned b e'.
Proof. unfold bind. destruct (m e) as [a e1 |]; [eauto | discriminate]. Qed.

Lemma handleEvent_highestBlock (w : World) (event : Log) (e e' : ExecutionLayer) :
  handleEvent w event e = Returned tt e' ->
  highestBlock e' = Some (int64_of_uint64 (BlockNumber event)).
Proof.
  unfold handleEvent. intros H.
  apply bind_Returned in H as (nm & e1 & _ & H).
  destruct (nm =? LogAddress event).
  - apply bind_Returned in H as (? & e2 & _ & H). now injection H as <-.
  - apply bind_Returned in H as (mm & e2 & _ & H).
    destruct (mm =? LogAddress event);
      apply bind_Returned in H as (? & e3 & _ & H); now injection H as <-.
Qed.

Lemma int64_of_uint64_le (x : Z) : 0 <= x -> int64_of_uint64 x <= x.
Proof.
  intros Hx. unfold int64_of_uint64.
  pose proof (Z.mod_le x (2 ^ 64) Hx ltac:(lia)).
  destruct (x mod 2 ^ 64 <? 2 ^ 63); lia.
Qed.

Lemma int64_of_uint64_small (x : Z) : 0 <= x < 2 ^ 63 -> int64_of_uint64 x = x.
Proof.
  intros Hx. unfold int64_of_uint64.
  rewrite Z.mod_small by lia.
  destruct (x <? 2 ^ 63) eqn:E; [reflexivity | apply Z.ltb_ge in E; lia].
Qed.

Lemma forM_handleEvent_highestBlock_le (w : World) (events : list Log) (stop : Z) :
  (forall ev, ev ∈ events -> 0 <= BlockNumber ev <= stop) ->
  forall (e e' : ExecutionLayer) (hb : Z),
    highestBlock e = Some hb -> hb <= stop ->
    forM_ (handleEvent w) events e = Returned tt e' ->
    exists hb', highestBlock e' = Some hb' /\ hb' <= stop.
Proof.
  induction events as [| ev events IH]; intros Hin e e' hb Hhb Hle Hrun.
  - injection Hrun as <-. eauto.
  - cbn in Hrun. unfold bind in Hrun.
    destruct (handleEvent w ev e) as [[] e1 |] eqn:Hev; [| discriminate].
    apply handleEvent_highestBlock in Hev.
    assert (Hb : 0 <= BlockNumber ev <= stop) by (apply Hin; left).
    apply (IH (fun x Hx => Hin x (list_elem_of_further _ _ _ Hx)) e1 e' _ Hev);
      [| exact Hrun].
    pose proof (int64_of_uint64_le (BlockNumber ev)). lia.
Qed.

(** C6: with start = highestBlock + 1 and stop the current head. If start >
    stop, the back-fill asks for the header only, leaves the indices and
    highestBlock alone and returns nil. If start <= stop, it makes the one
    log query for the three topics on the two contracts over [start, stop],
    hands the logs in order to [handleEvent], the handler of the live stream,
    sets highestBlock to stop, which is the maximum of stop and highestBlock
    (as it was before the call; and as it was after the logs, when their
    blocks lie in the range), and reports stop - start + 1 blocks: 1 when
    start = stop. *)
Theorem backfillEvents_contract (w : World) (e : ExecutionLayer) (hb stop : Z)
    (mm nm : Contract) :
  highestBlock e = Some hb ->
  rocketMinipoolManager e = Some mm ->
  rocketNodeManager e = Some nm ->
  HeaderByNumber w (length (trace e)) = Ok stop ->
  let start := hb + 1 in
  let q := subscribedLogs e (ContractAddress mm) (ContractAddress nm) start stop in
  (stop < start ->
   exists e',
     backfillEvents w e = Returned None e'
     /\ since e e' = [EHeaderByNumber;
                      ELog DebugLevel "No blocks to backfill events from" []]
     /\ minipoolIndex e' = minipoolIndex e /\ nodeIndex e' = nodeIndex e
     /\ heap e' = heap e /\ highestBlock e' = highestBlock e)
  /\ (start <= stop ->
      forall missedEvents,
        FilterLogs w (S (length (trace e))) q = Ok missedEvents ->
        match forM_ (handleEvent w) missedEvents
                (with_trace (trace e ++ [EHeaderByNumber; EFilterLogs q]) e) with
        | Returned _ e2 =>
            exists e' blocks,
              backfillEvents w e = Returned None e'
              /\ minipoolIndex e' = minipoolIndex e2
              /\ nodeIndex e' = nodeIndex e2 /\ heap e' = heap e2
              /\ highestBlock e' = Some (Z.max hb stop)
              /\ ((forall ev, ev ∈ missedEvents -> 0 <= BlockNumber ev <= stop) ->
                  exists hb2, highestBlock e2 = Some hb2
                              /\ highestBlock e' = Some (Z.max hb2 stop))
              /\ since e2 e' =
                 [ELog DebugLevel "Backfilled events"
                    [zap_Int "events" (Z.of_nat (length missedEvents));
                     zap_Uint64 "blocks" blocks;
                     zap_Int64 "start" (big_Int64 start);
                     zap_Int64 "stop" (big_Int64 stop)]]
              /\ blocks = (stop - start + 1) mod 2 ^ 64
              /\ (start = stop -> blocks = 1)
        | Panicked msg e2 => backfillEvents w e = Panicked msg e2
        end).
Proof.
  intros Hhb Hmm Hnm Hhead start q. split.
  - intros Hlt. eexists. split; [now apply (backfillEvents_no_gap w e hb stop) |].
    unfold since. cbn. rewrite drop_app_length. auto.
  - intros Hle missedEvents Hlogs.
    pose proof (backfillEvents_gap w e hb stop mm nm missedEvents
                  Hhb Hmm Hnm Hhead Hle Hlogs) as Hrun.
    fold start q in Hrun.
    destruct (forM_ (handleEvent w) missedEvents _) as [[] e2 | msg e2] eqn:Hloop;
      [| exact Hrun].
    eexists. exists (big_Uint64 (stop - start + 1)).
    split; [exact Hrun |]. cbn.
    repeat (split; [reflexivity |]).
    split; [f_equal; lia |]. split.
    + intros Hin.
      destruct (forM_handleEvent_highestBlock_le w missedEvents stop Hin
                  (with_trace (trace e ++ [EHeaderByNumber; EFilterLogs q]) e)
                  e2 hb Hhb ltac:(lia) Hloop) as (hb2 & H2 & Hle2).
      exists hb2. split; [exact H2 | f_equal; lia].
    + split; [unfold since; cbn; now rewrite drop_app_length |].
      split; [unfold big_Uint64; now rewrite Z.abs_eq by lia |].
      intros ->. now replace (stop - stop + 1) with 1 by lia.
Qed.

Lemma backfillEvents_contract_witness :
  (exists e', backfillEvents Fixture.calm Fixture.loaded = Returned None e'
              /\ highestBlock e' = Some 100)
  /\ (exists e', backfillEvents Backfill.ahead Fixture.loaded = Returned None e'
                 /\ highestBlock e' = Some 101
                 /\ nodeRecord e' Fixture.N2 = Some zeroNodeInfo
                 /\ exists n a b, last (trace e') =
                      Some (ELog DebugLevel "Backfilled events"
                              [zap_Int "events" n; zap_Uint64 "blocks" 1;
                               zap_Int64 "start" a; zap_Int64 "stop" b])).
Proof.
  split.
  - destruct (backfillEvents_contract Fixture.calm Fixture.loaded 100 100
                {| ContractAddress := Fixture.MM |} {| ContractAddress := Fixture.NM |})
      as [H _]; try (vm_compute; reflexivity).
    destruct H as (e' & Hrun & _ & _ & _ & _ & Hhb); [lia |].
    exists e'. split; [exact Hrun | exact Hhb].
  - destruct (backfillEvents_contract Backfill.ahead Fixture.loaded 100 101
                {| ContractAddress := Fixture.MM |} {| ContractAddress := Fixture.NM |})
      as [_ H]; try (vm_compute; reflexivity).
    specialize (H ltac:(lia) [Backfill.registered_N2] eq_refl).
    vm_compute in H. destruct H as (e' & blocks & Hrun & _).
    injection Hrun as <-.
    eexists. split; [vm_compute; reflexivity |].
    vm_compute. repeat split; eauto.
Defined.

(** ** Events and highestBlock *)

Lemma emits_weaken {A} (P Q : Effect -> Prop) (m : M A) :
  (forall x, P x -> Q x) -> emits P m -> emits Q m.
Proof.
  intros HPQ Hm e. destruct (Hm e) as (new & Ht & HF).
  exists new. split; [exact Ht |]. eapply Forall_impl; eauto.
Qed.

Lemma emits_at_since {A} (P : Effect -> Prop) (m : M A) (e : ExecutionLayer) :
  emits_at P m e -> Forall P (since e (final (m e))).
Proof.
  intros (new & Ht & HF). unfold since. now rewrite Ht, drop_app_length.
Qed.

(** Every historical log query of a back-fill starts at highestBlock + 1. *)
Lemma backfillEvents_queries (w : World) (e : ExecutionLayer) (hb : Z) :
  highestBlock e = Some hb ->
  forall q, EFilterLogs q ∈ since e (final (backfillEvents w e)) ->
            FromBlock q = Some (hb + 1).
Proof.
  intros Hhb.
  set (P := fun x => forall q, x = EFilterLogs q -> FromBlock q = Some (hb + 1)).
  assert (HP : forall x, handler_effect x -> P x).
  { intros x Hx q ->. destruct Hx. }
  assert (H : emits_at P (backfillEvents w) e).
  { unfold backfillEvents. apply emits_bind_at; [apply emits_gets |].
    intros a e' [= <- <-]. rewrite Hhb.
    clear Hhb. revert e.
    apply emits_bind; [apply emits_call; intros q [=] |].
    intros [stop | err]; [| apply emits_ret].
    destruct (stop <? hb + 1).
    - apply emits_bind; [apply emits_emit; intros q [=] | intros; apply emits_ret].
    - repeat (apply emits_bind; [first [apply emits_contractAddr | apply emits_gets] |];
              intros ?).
      apply emits_bind; [apply emits_call; now intros q [= <-] |].
      intros [events | err]; [| apply emits_ret].
      apply emits_bind.
      { apply emits_forM_. intros ev.
        apply (emits_weaken handler_effect); [exact HP | apply handleEvent_emits]. }
      intros _. apply emits_bind; [now apply emits_modify |].
      intros _. apply emits_bind; [apply emits_emit; intros q [=] |].
      intros; apply emits_ret. }
  apply emits_at_since in H. intros q Hq.
  rewrite Forall_forall in H. now apply (H _ Hq).
Qed.

(** C10: when the details of the minipool cannot be fetched, handling a
    [MinipoolCreated] event makes the one call, writes a warning, adds nothing
    to either index and still moves highestBlock to the event's block; a
    back-fill run from the state it leaves queries no block at or below the
    event's, so the event is not delivered again. *)
Theorem MinipoolCreated_details_failure (w : World) (e : ExecutionLayer)
    (event : Log) (nm mm : Contract) (topic1 topic2 : Hash) (rest : list Hash)
    (err : error) :
  rocketNodeManager e = Some nm ->
  rocketMinipoolManager e = Some mm ->
  ContractAddress nm <> LogAddress event ->
  ContractAddress mm = LogAddress event ->
  Topics event = minipoolLaunchedTopic e :: topic1 :: topic2 :: rest ->
  GetMinipoolDetails w (length (trace e)) (BytesToAddress topic1) None = Fail err ->
  0 <= BlockNumber event < 2 ^ 63 ->
  exists e',
    handleEvent w event e = Returned tt e'
    /\ minipoolIndex e' = minipoolIndex e
    /\ nodeIndex e' = nodeIndex e /\ heap e' = heap e
    /\ since e e' =
       [EGetMinipoolDetails (BytesToAddress topic1) None;
        ELog WarnLevel "Error fetching minipool details for new minipools"
          [zap_String "minipool" (BytesToAddress topic1); zap_Error err]]
    /\ highestBlock e' = Some (BlockNumber event)
    /\ forall w' q,
         EFilterLogs q ∈ since e' (final (backfillEvents w' e')) ->
         exists from, FromBlock q = Some from /\ BlockNumber event < from.
Proof.
  intros Hnm Hmm Hne Heq HT Hfail Hbn.
  assert (Hrun : handleEvent w event e = Returned tt
            (with_highestBlock (Some (BlockNumber event))
               (with_trace
                  (trace e ++
                   [EGetMinipoolDetails (BytesToAddress topic1) None;
                    ELog WarnLevel "Error fetching minipool details for new minipools"
                      [zap_String "minipool" (BytesToAddress topic1); zap_Error err]])
                  e))).
  { unfold handleEvent, bind, contractAddr, bind, gets. rewrite Hnm. cbn.
    apply Z.eqb_neq in Hne. rewrite Hne, Hmm. cbn. rewrite Heq, Z.eqb_refl.
    unfold handleMinipoolEvent, topicAt, bind, gets. rewrite HT. cbn.
    rewrite Z.eqb_refl. cbn. unfold call. rewrite Hfail. cbn.
    rewrite (int64_of_uint64_small _ Hbn), <- app_assoc. reflexivity. }
  eexists. split; [exact Hrun |].
  do 3 (split; [reflexivity |]).
  split; [unfold since; cbn; now rewrite drop_app_length |].
  split; [reflexivity |].
  intros w' q Hq. exists (BlockNumber event + 1). split; [| lia].
  revert Hq. apply backfillEvents_queries. reflexivity.
Qed.

Lemma MinipoolCreated_details_failure_witness :
  exists e',
    handleEvent Minipools.detailsDown Minipools.created Fixture.loaded
      = Returned tt e'
    /\ minipoolIndex e' = minipoolIndex Fixture.loaded
    /\ highestBlock e' = Some 104.
Proof.
  destruct (MinipoolCreated_details_failure Minipools.detailsDown Fixture.loaded
              Minipools.created {| ContractAddress := Fixture.NM |}
              {| ContractAddress := Fixture.MM |} Fixture.MP1 Fixture.N1 []
              "execution reverted")
    as (e' & Hrun & Hmp & _ & _ & _ & Hhb & _);
    try (vm_compute; reflexivity).
  - discriminate.
  - vm_compute. split; [discriminate | reflexivity].
  - exists e'. auto.
Defined.

(** A header never lowers highestBlock. *)
Lemma header_keeps_highestBlock (w : World) (l : Locals) (number hb : Z)
    (e : ExecutionLayer) :
  highestBlock e = Some hb ->
  exists l' e', iteration w l (NewHeadersRecv (Some number)) e = Returned l' e'
                /\ highestBlock e' = Some (Z.max hb number).
Proof.
  intros Hhb. unfold iteration, bind, gets. rewrite Hhb.
  destruct (number <=? hb) eqn:E.
  - apply Z.leb_le in E. do 2 eexists. split; [reflexivity |].
    rewrite Hhb. f_equal. lia.
  - apply Z.leb_gt in E. do 2 eexists. split; [reflexivity |].
    cbn. f_equal. lia.
Qed.

(** C3, as the code has it: the turn of the goroutine that handles a log sets
    highestBlock to the block of the log, also when that block is below
    highestBlock: a log of an earlier block rewinds it. *)
Theorem event_rewinds_highestBlock (w : World) (l : Locals) (event : Log)
    (e e' : ExecutionLayer) (hb : Z) (l' : option Locals) :
  highestBlock e = Some hb ->
  0 <= BlockNumber event < hb ->
  iteration w l (EventsRecv (Some event)) e = Returned l' e' ->
  exists hb', highestBlock e' = Some hb' /\ hb' < hb.
Proof.
  intros Hhb Hbn Hrun. cbn in Hrun.
  apply bind_Returned in Hrun as ([] & e1 & Hev & Hend).
  apply handleEvent_highestBlock in Hev.
  injection Hend as _ <-.
  exists (int64_of_uint64 (BlockNumber event)). split; [exact Hev |].
  pose proof (int64_of_uint64_le (BlockNumber event)). lia.
Qed.

Lemma event_rewinds_highestBlock_witness :
  highestBlock Rewind.at105 = Some 105
  /\ exists hb',
       highestBlock
         (final (ingest Fixture.calm Rewind.started
                   [NewHeadersRecv (Some 105); EventsRecv (Some Rewind.late)]
                   Fixture.loaded)) = Some hb'
       /\ hb' < 105.
Proof.
  split; [reflexivity |].
  apply (event_rewinds_highestBlock Fixture.calm Rewind.started Rewind.late
           Rewind.at105 _ 105 (Some Rewind.started)).
  - reflexivity.
  - vm_compute. split; [discriminate | reflexivity].
  - vm_compute. reflexivity.
Defined.

(** ** Reconnecting *)

(** Unfolds the monad and the field updates, call by value: nested updates of
    the state are flattened as they are built. *)
Ltac go_simpl :=
  cbv beta iota zeta delta
    [bind ret gets modify panic emit call logDebug logWarn logError logPanic
     sleep alloc setECShutdownCb nodeIndex_Store minipoolIndex_Store
     with_contracts with_topics with_query with_minipoolIndex with_nodeIndex
     with_highestBlock with_ethclientShutdownCb with_shutdown with_heap
     with_trace with_ingestor
     ecURL rocketStorageAddr rocketNodeManager rocketMinipoolManager
     smoothingPool nodeRegisteredTopic smoothingPoolStatusChangedTopic
     minipoolLaunchedTopic query minipoolIndex nodeIndex highestBlock
     ethclientShutdownCb shutdown heap trace ingestor final value].

Ltac tidy :=
  go_simpl; rewrite <- ?app_assoc; cbn [app]; rewrite ?length_app; cbn [length].

#[local] Arguments backfillEvents : simpl never.
Lemma reconnectLoop_S (w : World) (n : nat) (i : Z) (e : ExecutionLayer) :
  reconnectLoop w (S n) i e =
  let t1 := trace e ++ [ELog WarnLevel "Attempting to reconnect" [zap_Int "attempt" (i + 1)];
                        ESubscribeFilterLogs (query e)] in
  match SubscribeFilterLogs w (length (trace e) + 1)%nat (query e) with
  | Fail err =>
      reconnectLoop w n (i + 1)
        (with_trace
           (t1 ++ [ELog WarnLevel "Error trying to reconnect to execution client"
                     [zap_Error err];
                   ESleep (i * (5 * Second))]) e)
  | Ok s =>
      let t2 := t1 ++ [ELog WarnLevel "Reconnected" [zap_Int "attempt" (i + 1)];
                       ESubscribeNewHead] in
      match SubscribeNewHead w (length (trace e) + 3)%nat with
      | Fail _ =>
          Panicked "Couldn't re-establish eth client connection"
            (with_trace
               (t2 ++ [ELog WarnLevel
                         "Couldn't resubscribe to block headers after reconnecting" [];
                       ELog PanicLevel "Couldn't re-establish eth client connection" []])
               e)
      | Ok h =>
          match backfillEvents w
                  (with_ethclientShutdownCb (Some (s, h)) (with_trace t2 e)) with
          | Returned None e3 => Returned (s, h) e3
          | Returned (Some _) e3 =>
              Panicked "Couldn't backfill blocks after reconnecting to execution client"
                (with_trace
                   (trace e3 ++
                    [ELog PanicLevel
                       "Couldn't backfill blocks after reconnecting to execution client" []])
                   e3)
          | Panicked msg e3 => Panicked msg e3
          end
      end
  end.
Proof.
  change (reconnectLoop w (S n) i e) with
    ((run logWarn "Attempting to reconnect" [zap_Int "attempt" (i + 1)] then
      let* q := gets query in
      let* r := call (ESubscribeFilterLogs q) (fun t => SubscribeFilterLogs w t q) in
      match r with
      | Ok s =>
          run logWarn "Reconnected" [zap_Int "attempt" (i + 1)] then
          let* r := call ESubscribeNewHead (SubscribeNewHead w) in
          match r with
          | Fail _ =>
              run logWarn "Couldn't resubscribe to block headers after reconnecting" [] then
              logPanic "Couldn't re-establish eth client connection" []
          | Ok h =>
              run setECShutdownCb (Some (s, h)) then
              let* err := backfillEvents w in
              match err with
              | Some _ =>
                  logPanic "Couldn't backfill blocks after reconnecting to execution client" []
              | None => ret (s, h)
              end
          end
      | Fail err =>
          run logWarn "Error trying to reconnect to execution client" [zap_Error err] then
          run sleep (i * (5 * Second)) then
          reconnectLoop w n (i + 1)
      end) e).
  destruct e. tidy.
  destruct (SubscribeFilterLogs w _ _) as [s | err]; tidy; [| reflexivity].
  destruct (SubscribeNewHead w _) as [h | err]; tidy; [| reflexivity].
  destruct (backfillEvents w _) as [[err |] e3 | msg e3]; reflexivity.
Qed.

Lemma attempts_app (t1 t2 : list Effect) :
  attempts (t1 ++ t2) = (attempts t1 + attempts t2)%nat.
Proof. induction t1 as [| [] t1 IH]; cbn; auto. Qed.

Lemma sleeps_app (t1 t2 : list Effect) : sleeps (t1 ++ t2) = sleeps t1 ++ sleeps t2.
Proof. induction t1 as [| [] t1 IH]; cbn; auto. now rewrite IH. Qed.

Lemma quiet_attempts (t : list Effect) : Forall quiet t -> attempts t = 0%nat.
Proof. induction 1 as [| [] t Hx _ IH]; cbn; auto; destruct Hx. Qed.

Lemma quiet_sleeps (t : list Effect) : Forall quiet t -> sleeps t = [].
Proof. induction 1 as [| [] t Hx _ IH]; cbn; auto; destruct Hx. Qed.

Lemma backfillEvents_quiet (w : World) : emits quiet (backfillEvents w).
Proof.
  assert (HP : forall x, handler_effect x -> quiet x) by (now intros []).
  unfold backfillEvents, logDebug.
  repeat first
    [ apply emits_forM_; intros ?;
      apply (emits_weaken handler_effect); [exact HP | apply handleEvent_emits]
    | emits_step ].
Qed.

Lemma since_app (e e' : ExecutionLayer) (new : list Effect) :
  trace e' = trace e ++ new -> since e e' = new.
Proof. intros H. unfold since. now rewrite H, drop_app_length. Qed.

Lemma reconnectLoop_trace (w : World) (n : nat) :
  forall (i : Z) (e : ExecutionLayer),
  exists new,
    trace (final (reconnectLoop w n i e)) = trace e ++ new
    /\ (attempts new <= n)%nat
    /\ (forall k d, sleeps new !! k = Some d ->
                    d = (i + Z.of_nat k) * (5 * Second)).
Proof.
  induction n as [| n IH]; intros i e.
  - exists [ELog PanicLevel "Couldn't re-establish eth client connection" []].
    split; [reflexivity |]. split; [cbn; lia |]. intros k d Hk.
    cbn in Hk. now destruct k.
  - rewrite reconnectLoop_S. cbv zeta.
    destruct (SubscribeFilterLogs w _ _) as [s | err].
    + destruct (SubscribeNewHead w _) as [h | err].
      * match goal with
        | |- context [backfillEvents w ?X] =>
            destruct (backfillEvents_quiet w X) as (newb & Ht & HF);
            destruct (backfillEvents w X) as [[berr |] e3 | msg e3]
        end; cbn in Ht; cbn [final trace with_trace]; rewrite Ht, <- !app_assoc;
          eexists; (split; [reflexivity |]);
          rewrite ?attempts_app, ?sleeps_app, ?(quiet_attempts _ HF),
            ?(quiet_sleeps _ HF); cbn; (split; [lia |]);
          intros k d Hk; now destruct k.
      * cbn [final trace with_trace]. rewrite <- !app_assoc.
        eexists. split; [reflexivity |]. cbn. split; [lia |].
        intros k d Hk. now destruct k.
    + match goal with
      | |- context [reconnectLoop w n (i + 1) ?X] =>
          destruct (IH (i + 1) X) as (new & Ht & Ha & Hs)
      end.
      rewrite Ht. cbn [trace with_trace]. rewrite <- !app_assoc.
      eexists. split; [reflexivity |]. cbn. split; [lia |].
      intros [| k] d Hk; cbn in Hk.
      * injection Hk as <-. lia.
      * rewrite (Hs k d Hk). lia.
Qed.

Lemma reconnectLoop_all_fail (w : World) :
  (forall t q, exists err, SubscribeFilterLogs w t q = Fail err) ->
  forall (n : nat) (i : Z) (e : ExecutionLayer),
  exists e',
    reconnectLoop w n i e
      = Panicked "Couldn't re-establish eth client connection" e'
    /\ attempts (since e e') = n
    /\ sleeps (since e e')
       = map (fun k => (i + Z.of_nat k) * (5 * Second)) (seq 0 n).
Proof.
  intros Hfail. induction n as [| n IH]; intros i e.
  - eexists. split; [reflexivity |].
    rewrite (since_app e _ [ELog PanicLevel "Couldn't re-establish eth client connection" []])
      by reflexivity.
    split; reflexivity.
  - rewrite reconnectLoop_S. cbv zeta.
    destruct (Hfail (length (trace e) + 1)%nat (query e)) as (err & ->).
    match goal with
    | |- context [reconnectLoop w n (i + 1) ?X] =>
        destruct (IH (i + 1) X) as (e' & Hrun & Ha & Hs)
    end.
    exists e'. split; [exact Hrun |].
    pose proof (reconnectLoop_trace w n (i + 1)) as Ht.
    match type of Hrun with
    | reconnectLoop w n (i + 1) ?X = _ =>
        specialize (Ht X); rewrite Hrun in Ht; destruct Ht as (new & Ht & _);
        rewrite (since_app X e' new Ht) in Ha, Hs
    end.
    cbn [final trace with_trace] in Ht. rewrite <- !app_assoc in Ht.
    rewrite (since_app e e' _ Ht). cbn. rewrite Ha, Hs. split; [reflexivity |].
    f_equal; [f_equal; lia |].
    rewrite <- seq_shift, map_map. apply map_ext. intros k. lia.
Qed.

Lemma handleSubscriptionError_running (w : World) (err : error)
    (subs : Subscription * Subscription) (e : ExecutionLayer) :
  shutdown e = false ->
  handleSubscriptionError w err subs e =
  reconnectLoop w (Z.to_nat reconnectRetries) 0
    (with_trace
       (trace e ++ [ELog WarnLevel "Error received from eth client subscription"
                      [zap_Error err]]) e).
Proof. intros H. unfold handleSubscriptionError, bind, gets. now rewrite H. Qed.

(** C5, as the code has it: at any attempt of the reconnection loop, however
    many are left, if the log subscription succeeds and the header
    subscription then fails, the loop ends there: it writes the warning and
    panics, and no other attempt is made. *)
Theorem header_resubscription_failure_is_final (w : World) (n : nat) (i : Z)
    (e : ExecutionLayer) (s : Subscription) (herr : error) :
  SubscribeFilterLogs w (length (trace e) + 1)%nat (query e) = Ok s ->
  SubscribeNewHead w (length (trace e) + 3)%nat = Fail herr ->
  exists e',
    reconnectLoop w (S n) i e
      = Panicked "Couldn't re-establish eth client connection" e'
    /\ since e e' =
       [ELog WarnLevel "Attempting to reconnect" [zap_Int "attempt" (i + 1)];
        ESubscribeFilterLogs (query e);
        ELog WarnLevel "Reconnected" [zap_Int "attempt" (i + 1)];
        ESubscribeNewHead;
        ELog WarnLevel "Couldn't resubscribe to block headers after reconnecting" [];
        ELog PanicLevel "Couldn't re-establish eth client connection" []]
    /\ attempts (since e e') = 1%nat.
Proof.
  intros Hlogs Hhead. rewrite reconnectLoop_S. cbv zeta. rewrite Hlogs, Hhead.
  eexists. split; [reflexivity |].
  match goal with
  | |- since e ?X = ?l /\ _ =>
      assert (Hs : since e X = l)
        by (apply since_app; cbn [trace with_trace]; now rewrite <- !app_assoc)
  end.
  rewrite Hs. split; reflexivity.
Qed.

Lemma header_resubscription_failure_is_final_witness :
  exists e',
    handleSubscriptionError Outage.headersLate "EOF" (1%nat, 2%nat) Fixture.loaded
      = Panicked "Couldn't re-establish eth client connection" e'.
Proof.
  rewrite handleSubscriptionError_running by reflexivity.
  destruct (header_resubscription_failure_is_final Outage.headersLate 9 0
              (with_trace
                 (trace Fixture.loaded ++
                  [ELog WarnLevel "Error received from eth client subscription"
                     [zap_Error "EOF"]]) Fixture.loaded) 3%nat "timeout")
    as (e' & Hrun & _); [vm_compute; reflexivity | vm_compute; reflexivity |].
  exists e'. exact Hrun.
Defined.

Lemma header_failure_is_not_retried :
  ~ retries_after_header_failure Outage.headersLate "EOF" (1%nat, 2%nat)
      Fixture.loaded.
Proof.
  intros H. specialize (H 3%nat "timeout" eq_refl eq_refl).
  vm_compute in H. lia.
Qed.

Lemma reconnectLoop_first_attempt (w : World) (n : nat) (i : Z) (e : ExecutionLayer) :
  exists rest,
    since e (final (reconnectLoop w (S n) i e))
    = ELog WarnLevel "Attempting to reconnect" [zap_Int "attempt" (i + 1)]
      :: ESubscribeFilterLogs (query e) :: rest.
Proof.
  rewrite reconnectLoop_S. cbv zeta.
  destruct (SubscribeFilterLogs w _ _) as [s | err1].
  - destruct (SubscribeNewHead w _) as [h | err2].
    + match goal with
      | |- context [backfillEvents w ?X] =>
          destruct (backfillEvents_quiet w X) as (newb & Hb & _);
          destruct (backfillEvents w X) as [[berr |] e3 | msg e3]
      end; cbn [final trace with_trace with_ethclientShutdownCb] in Hb |- *;
        eexists; apply since_app; cbn [trace with_trace]; rewrite ?Hb, <- ?app_assoc;
        reflexivity.
    + eexists. apply since_app. cbn [final trace with_trace].
      rewrite <- ?app_assoc. reflexivity.
  - match goal with
    | |- context [reconnectLoop w n (i + 1) ?X] =>
        destruct (reconnectLoop_trace w n (i + 1) X) as (new1 & Ht1 & _)
    end.
    eexists. apply since_app. rewrite Ht1. cbn [trace with_trace].
    rewrite <- ?app_assoc. reflexivity.
Qed.

(** C8, as the code has it: an invocation makes at most ten attempts, the
    first at once; the wait after attempt k + 1 is 5 k seconds (none after
    the first, 45 seconds after the tenth); when every log subscription
    fails it makes all ten and panics; and at any attempt, when both
    subscriptions succeed and the back-fill returns an error, it panics. *)
Theorem handleSubscriptionError_retries (w : World) (err : error)
    (subs : Subscription * Subscription) (e : ExecutionLayer) :
  shutdown e = false ->
  let new := since e (final (handleSubscriptionError w err subs e)) in
  (attempts new <= Z.to_nat reconnectRetries)%nat
  /\ (exists rest,
        new = ELog WarnLevel "Error received from eth client subscription"
                [zap_Error err]
              :: ELog WarnLevel "Attempting to reconnect" [zap_Int "attempt" 1]
              :: ESubscribeFilterLogs (query e) :: rest)
  /\ (forall k d, sleeps new !! k = Some d -> d = 5 * Z.of_nat k * Second)
  /\ ((forall t q, exists err', SubscribeFilterLogs w t q = Fail err') ->
      (exists e', handleSubscriptionError w err subs e
                  = Panicked "Couldn't re-establish eth client connection" e')
      /\ attempts new = 10%nat
      /\ sleeps new = map (fun k => 5 * Z.of_nat k * Second) (seq 0 10))
  /\ (forall n i e1 s h berr e3,
        SubscribeFilterLogs w (length (trace e1) + 1)%nat (query e1) = Ok s ->
        SubscribeNewHead w (length (trace e1) + 3)%nat = Ok h ->
        backfillEvents w (reconnected i s h e1) = Returned (Some berr) e3 ->
        exists e',
          reconnectLoop w (S n) i e1
          = Panicked "Couldn't backfill blocks after reconnecting to execution client" e').
Proof.
  intros Hup new.
  set (e0 := with_trace
               (trace e ++ [ELog WarnLevel "Error received from eth client subscription"
                              [zap_Error err]]) e).
  pose proof (handleSubscriptionError_running w err subs e Hup) as Hrun.
  fold e0 in Hrun.
  destruct (reconnectLoop_trace w (Z.to_nat reconnectRetries) 0 e0)
    as (new0 & Ht & Ha & Hs).
  assert (Hnew : new = ELog WarnLevel "Error received from eth client subscription"
                         [zap_Error err] :: new0).
  { unfold new. rewrite Hrun. apply since_app. rewrite Ht. unfold e0.
    cbn [trace with_trace]. now rewrite <- app_assoc. }
  split; [rewrite Hnew; exact Ha |]. split.
  { rewrite Hnew.
    destruct (reconnectLoop_first_attempt w 9 0 e0) as (rest & Hrest).
    change (S 9) with (Z.to_nat reconnectRetries) in Hrest.
    rewrite (since_app _ _ _ Ht) in Hrest. rewrite Hrest. eauto. }
  split.
  { rewrite Hnew. cbn [sleeps]. intros k d Hk. rewrite (Hs k d Hk). lia. }
  split.
  { intros Hfail.
    destruct (reconnectLoop_all_fail w Hfail (Z.to_nat reconnectRetries) 0 e0)
      as (e' & Hloop & Hatt & Hsl).
    split; [exists e'; now rewrite Hrun |].
    assert (Hsince : since e0 e' = new0).
    { apply since_app. now rewrite Hloop in Ht. }
    rewrite Hsince in Hatt, Hsl. rewrite Hnew. cbn [attempts sleeps].
    split; [exact Hatt |]. rewrite Hsl. apply map_ext. intros k. lia. }
  intros n i e1 s h berr e3 Hlogs Hhead Hback.
  rewrite reconnectLoop_S. cbv zeta. rewrite Hlogs, Hhead.
  match goal with
  | |- context [backfillEvents w ?X] =>
      replace X with (reconnected i s h e1)
        by (unfold reconnected; now rewrite <- app_assoc)
  end.
  rewrite Hback. eauto.
Qed.

Lemma handleSubscriptionError_retries_witness :
  (attempts (since Fixture.loaded
               (final (handleSubscriptionError Outage.down "EOF" (1%nat, 2%nat)
                         Fixture.loaded))) <= 10)%nat.
Proof.
  apply (handleSubscriptionError_retries Outage.down "EOF" (1%nat, 2%nat)
           Fixture.loaded eq_refl).
Defined.

Lemma first_wait_is_zero :
  ~ waits_five_seconds_per_attempt Outage.down "EOF" (1%nat, 2%nat) Fixture.loaded.
Proof.
  intros H. specialize (H 0%nat 0 ltac:(vm_compute; reflexivity)).
  vm_compute in H. discriminate.
Qed.

Example backfill_failure_after_reconnect_panics :
  value (handleSubscriptionError Outage.headerDown "EOF" (1%nat, 2%nat) Fixture.loaded)
    = None
  /\ last (trace (final (handleSubscriptionError Outage.headerDown "EOF"
                           (1%nat, 2%nat) Fixture.loaded)))
     = Some (ELog PanicLevel
               "Couldn't backfill blocks after reconnecting to execution client" []).
Proof. vm_compute. split; reflexivity. Qed.


Example Deinit_then_error_is_ignored :
  value ((run Deinit then
          handleSubscriptionError Outage.down "EOF" (1%nat, 2%nat)) Fixture.loaded)
  = Some (1%nat, 2%nat)
  /\ since Fixture.loaded
       (final ((run Deinit then
                handleSubscriptionError Outage.down "EOF" (1%nat, 2%nat))
                 Fixture.loaded))
     = [EUnsubscribe 1; EUnsubscribe 2;
        ELog DebugLevel "Unsubscribed from EL events" []].
Proof. vm_compute. split; reflexivity. Qed.

(** ** Back-fill followed by the live stream *)

Ltac alike_fields H :=
  unfold alike, erase in H;
  repeat match goal with e : ExecutionLayer |- _ => destruct e end;
  cbn in H |- *; injection H as ?; subst.

Lemma alike_indices (e1 e2 : ExecutionLayer) :
  alike e1 e2 ->
  minipoolIndex e1 = minipoolIndex e2 /\ nodeIndex e1 = nodeIndex e2
  /\ heap e1 = heap e2.
Proof. intros H. alike_fields H. auto. Qed.

Lemma alike_with_trace (t : list Effect) (e : ExecutionLayer) :
  alike (with_trace t e) e.
Proof. reflexivity. Qed.

Lemma respects_ret {A} (a : A) : respects (ret a).
Proof. intros e1 e2 H. cbn. auto. Qed.

Lemma respects_panic {A} (msg : string) : respects (@panic A msg).
Proof. intros e1 e2 H. cbn. auto. Qed.

Lemma respects_bind {A B} (m : M A) (k : A -> M B) :
  respects m -> (forall a, respects (k a)) -> respects (bind m k).
Proof.
  intros Hm Hk e1 e2 H. unfold bind. specialize (Hm e1 e2 H).
  destruct (m e1) as [a1 e1' | m1 e1'], (m e2) as [a2 e2' | m2 e2'];
    cbn in Hm; try contradiction.
  - destruct Hm as [<- Hm]. now apply Hk.
  - exact Hm.
Qed.

Lemma respects_gets {A} (f : ExecutionLayer -> A) :
  (forall e, f e = f (erase e)) -> respects (gets f).
Proof.
  intros Hf e1 e2 H. cbn. split; [| exact H].
  rewrite (Hf e1), (Hf e2). now rewrite H.
Qed.

Lemma respects_modify (f : ExecutionLayer -> ExecutionLayer) :
  (forall e1 e2, alike e1 e2 -> alike (f e1) (f e2)) -> respects (modify f).
Proof. intros Hf e1 e2 H. cbn. auto. Qed.

Lemma respects_emit (x : Effect) : respects (emit x).
Proof. apply respects_modify. intros e1 e2 H. exact H. Qed.

Lemma respects_call {A} (x : Effect) (answer : nat -> A) :
  (forall t t', answer t = answer t') -> respects (call x answer).
Proof. intros Ha e1 e2 H. cbn. split; [apply Ha | exact H]. Qed.

Lemma respects_alloc (ni : nodeInfo) : respects (alloc ni).
Proof.
  intros e1 e2 H. cbn. destruct (alike_indices _ _ H) as (_ & _ & Hh).
  rewrite Hh. split; [reflexivity |]. alike_fields H. reflexivity.
Qed.

Lemma respects_deref (ptr : loc) : respects (deref ptr).
Proof.
  intros e1 e2 H. unfold deref. destruct (alike_indices _ _ H) as (_ & _ & Hh).
  rewrite Hh. destruct (heap e2 !! ptr); cbn; auto.
Qed.

Lemma respects_assign (ptr : loc) (ni : nodeInfo) : respects (assign ptr ni).
Proof.
  intros e1 e2 H. unfold assign. destruct (alike_indices _ _ H) as (_ & _ & Hh).
  rewrite Hh. destruct (heap e2 !! ptr); cbn; auto.
  split; [reflexivity |]. alike_fields H. reflexivity.
Qed.

Lemma respects_topicAt (event : Log) (i : nat) : respects (topicAt event i).
Proof.
  unfold topicAt. destruct (Topics event !! i);
    [apply respects_ret | apply respects_panic].
Qed.

Lemma respects_forM_ {A} (f : A -> M unit) (l : list A) :
  (forall x, respects (f x)) -> respects (forM_ f l).
Proof.
  intros Hf. induction l as [| x l IH]; cbn.
  - apply respects_ret.
  - apply respects_bind; auto.
Qed.

Ltac respects_step :=
  first
    [ apply respects_bind; [| intros ?]
    | apply respects_ret | apply respects_panic
    | apply respects_gets; reflexivity
    | apply respects_emit
    | apply respects_alloc | apply respects_deref | apply respects_assign
    | apply respects_topicAt
    | apply respects_modify;
      let e1 := fresh "e" in let e2 := fresh "e" in let H := fresh "H" in
      intros e1 e2 H; alike_fields H; reflexivity
    | match goal with |- respects (if ?b then _ else _) => destruct b end
    | match goal with |- respects (match ?x with _ => _ end) => destruct x end ].

Section TimeInvariant.
Variable w : World.
Hypothesis Hw : time_invariant w.

Lemma handleNodeEvent_respects (event : Log) : respects (handleNodeEvent w event).
Proof.
  unfold handleNodeEvent, nodeIndex_Store, set_feeDistributor,
    set_inSmoothingPool, logDebug, logWarn.
  repeat first [ apply respects_call; intros t t'; apply Hw | respects_step ].
Qed.

Lemma handleMinipoolEvent_respects (event : Log) :
  respects (handleMinipoolEvent w event).
Proof.
  unfold handleMinipoolEvent, minipoolIndex_Store, logDebug, logWarn.
  repeat first [ apply respects_call; intros t t'; apply Hw | respects_step ].
Qed.

Lemma handleEvent_respects (event : Log) : respects (handleEvent w event).
Proof.
  unfold handleEvent, contractAddr, logWarn.
  repeat first [ apply handleNodeEvent_respects
               | apply handleMinipoolEvent_respects | respects_step ].
Qed.
End TimeInvariant.

Lemma forM__app {A} (f : A -> M unit) (l1 l2 : list A) (e : ExecutionLayer) :
  forM_ f (l1 ++ l2) e = (run forM_ f l1 then forM_ f l2) e.
Proof.
  revert e. induction l1 as [| x l1 IH]; intros e; cbn.
  - reflexivity.
  - unfold bind.
    destruct (f x e) as [[] e1 | msg e1]; [| reflexivity].
    rewrite IH. reflexivity.
Qed.

(** The goroutine on a run of logs is the handler on each, in order. *)
Lemma ingest_live (w : World) (events : list Log) :
  forall (l : Locals) (e : ExecutionLayer),
    final (ingest w l (live events) e) = final (forM_ (handleEvent w) events e)
    /\ (value (ingest w l (live events) e) = None <->
        value (forM_ (handleEvent w) events e) = None).
Proof.
  induction events as [| ev events IH]; intros l e.
  - cbn. split; [reflexivity | split; discriminate].
  - cbn. unfold bind at 1 2 4 5. unfold bind at 1 2.
    destruct (handleEvent w ev e) as [[] e1 | msg e1]; cbn; [apply IH |].
    split; [reflexivity | split; reflexivity].
Qed.

(** C7: when the back-fill is handed a run of logs and the goroutine then
    receives the logs that follow, the two indices (and the node records)
    end as they do when the goroutine receives all the logs in order; and
    the one run panics exactly when the other does. *)
Theorem backfill_then_live_same_indices (w : World) (e : ExecutionLayer)
    (l : Locals) (hb stop : Z) (mm nm : Contract) (prefix suffix : list Log) :
  time_invariant w ->
  highestBlock e = Some hb ->
  rocketMinipoolManager e = Some mm ->
  rocketNodeManager e = Some nm ->
  HeaderByNumber w (length (trace e)) = Ok stop ->
  hb + 1 <= stop ->
  FilterLogs w (S (length (trace e)))
    (subscribedLogs e (ContractAddress mm) (ContractAddress nm) (hb + 1) stop)
    = Ok prefix ->
  let replayed := (run backfillEvents w then ingest w l (live suffix)) e in
  let streamed := ingest w l (live (prefix ++ suffix)) e in
  minipoolIndex (final replayed) = minipoolIndex (final streamed)
  /\ nodeIndex (final replayed) = nodeIndex (final streamed)
  /\ heap (final replayed) = heap (final streamed)
  /\ (forall a, nodeRecord (final replayed) a = nodeRecord (final streamed) a)
  /\ (value replayed = None <-> value streamed = None).
Proof.
  intros Hw Hhb Hmm Hnm Hhead Hle Hlogs replayed streamed.
  assert (H : alike (final replayed) (final streamed)
              /\ (value replayed = None <-> value streamed = None)).
  { destruct (ingest_live w (prefix ++ suffix) l e) as [Hsf Hsv].
    fold streamed in Hsf, Hsv. rewrite forM__app in Hsf, Hsv.
    unfold bind in Hsf, Hsv. rewrite Hsf, Hsv. clear Hsf Hsv.
    unfold replayed, bind.
    rewrite (backfillEvents_gap w e hb stop mm nm prefix Hhb Hmm Hnm Hhead Hle Hlogs).
    set (e1 := with_trace _ e).
    pose proof (respects_forM_ (handleEvent w) prefix (handleEvent_respects w Hw)
                  e1 e (alike_with_trace _ e)) as Hpre.
    destruct (forM_ (handleEvent w) prefix e1) as [[] e2 | m2 e2],
             (forM_ (handleEvent w) prefix e) as [[] e2' | m2' e2'];
      cbn in Hpre; try contradiction; destruct Hpre as [_ Hpre].
    - match goal with
      | |- context [ingest w l (live suffix) ?X] =>
          destruct (ingest_live w suffix l X) as [Hf Hv];
          pose proof (respects_forM_ (handleEvent w) suffix
                        (handleEvent_respects w Hw) X e2' Hpre) as Hsuf
      end.
      rewrite Hf, Hv. clear Hf Hv.
      match type of Hsuf with
      | alike_outcomes ?o1 ?o2 => destruct o1 as [[] e3 | m3 e3], o2 as [[] e3' | m3' e3']
      end; cbn in Hsuf; try contradiction; destruct Hsuf as [_ Hsuf];
        cbn; (split; [exact Hsuf | split; auto]).
    - cbn. split; [exact Hpre | split; auto]. }
  destruct H as [Ha Hv]. destruct (alike_indices _ _ Ha) as (H1 & H2 & H3).
  repeat (split; [assumption |]). split; [| exact Hv].
  intros a. unfold nodeRecord. now rewrite H2, H3.
Qed.

Lemma backfill_then_live_same_indices_witness :
  nodeRecord
    (final ((run backfillEvents Backfill.ahead then
             ingest Backfill.ahead Rewind.started (live [Replay.opted_in_N2]))
              Fixture.loaded)) Fixture.N2
  = nodeRecord
      (final (ingest Backfill.ahead Rewind.started
                (live [Backfill.registered_N2; Replay.opted_in_N2])
                Fixture.loaded)) Fixture.N2.
Proof.
  assert (Hw : time_invariant Backfill.ahead)
    by (intros t t' a o; split; reflexivity).
  pose proof (backfill_then_live_same_indices Backfill.ahead Fixture.loaded
                Rewind.started 100 101
                {| ContractAddress := Fixture.MM |} {| ContractAddress := Fixture.NM |}
                [Backfill.registered_N2] [Replay.opted_in_N2]
                Hw eq_refl eq_refl eq_refl eq_refl ltac:(lia) eq_refl) as H.
  apply H.
Defined.

Example replayed_opt_in_is_recorded :
  nodeRecord
    (final ((run backfillEvents Backfill.ahead then
             ingest Backfill.ahead Rewind.started (live [Replay.opted_in_N2]))
              Fixture.loaded)) Fixture.N2
  = Some {| inSmoothingPool := true; feeDistributor := 0 |}.
Proof. vm_compute. reflexivity. Qed.

(** ** Initialization *)

(** C4, as the code has it: [Init] drops the result of [ecEventsConnect].
    When the log subscription, the header subscription or the first
    back-fill fails, [Init] still returns nil, with the indices loaded and
    the goroutine not started. *)
Theorem Init_drops_connect_errors :
  (value (Init Outage.down Startup.cold) = Some None
   /\ ingestor (final (Init Outage.down Startup.cold)) = None
   /\ minipoolIndex (final (Init Outage.down Startup.cold)) !! Fixture.P1
      = Some Fixture.N1)
  /\ (value (Init Outage.headersLate Startup.cold) = Some None
      /\ ingestor (final (Init Outage.headersLate Startup.cold)) = None
      /\ minipoolIndex (final (Init Outage.headersLate Startup.cold)) !! Fixture.P1
         = Some Fixture.N1)
  /\ (value (Init Startup.backfillDown Startup.cold) = Some None
      /\ ingestor (final (Init Startup.backfillDown Startup.cold)) = None
      /\ minipoolIndex (final (Init Startup.backfillDown Startup.cold)) !! Fixture.P1
         = Some Fixture.N1).
Proof. vm_compute. repeat split; reflexivity. Qed.

Example Init_reports_snapshot_errors :
  value (Init Outage.headerDown Startup.cold) = Some (Some "timeout")
  /\ value (Init Fixture.calm Startup.cold) = Some None
  /\ ingestor (final (Init Fixture.calm Startup.cold)) = Some (1%nat, 2%nat).
Proof. vm_compute. repeat split; reflexivity. Qed.


(** * Further properties of the code *)

(** ** Steps that keep a relation *)

Section Steps.
Variable R : ExecutionLayer -> ExecutionLayer -> Prop.
Hypothesis R_pre : PreOrder R.

Lemma steps_still {A} (m : M A) : (forall e, final (m e) = e) -> steps_to R m.
Proof. intros H e. now rewrite H. Qed.

Lemma steps_ret {A} (a : A) : steps_to R (ret a).
Proof. now apply steps_still. Qed.

Lemma steps_panic {A} (msg : string) : steps_to R (@panic A msg).
Proof. now apply steps_still. Qed.

Lemma steps_gets {A} (f : ExecutionLayer -> A) : steps_to R (gets f).
Proof. now apply steps_still. Qed.

Lemma steps_deref (ptr : loc) : steps_to R (deref ptr).
Proof. apply steps_still. intros e. unfold deref. now destruct (heap e !! ptr). Qed.

Lemma steps_topicAt (event : Log) (i : nat) : steps_to R (topicAt event i).
Proof.
  apply steps_still. intros e. unfold topicAt. now destruct (Topics event !! i).
Qed.

Lemma steps_contractAddr (f : ExecutionLayer -> option Contract) :
  steps_to R (contractAddr f).
Proof.
  apply steps_still. intros e. unfold contractAddr, bind, gets. now destruct (f e).
Qed.

Lemma steps_bind {A B} (m : M A) (k : A -> M B) :
  steps_to R m -> (forall a, steps_to R (k a)) -> steps_to R (bind m k).
Proof.
  intros Hm Hk e. unfold bind. specialize (Hm e).
  destruct (m e) as [a e1 | msg e1]; cbn in Hm |- *; [| exact Hm].
  etransitivity; [exact Hm | apply Hk].
Qed.

Lemma steps_forM_ {A} (f : A -> M unit) (l : list A) :
  (forall x, steps_to R (f x)) -> steps_to R (forM_ f l).
Proof.
  intros Hf. induction l as [| x l IH]; cbn.
  - apply steps_ret.
  - apply steps_bind; auto.
Qed.

Lemma steps_modify (f : ExecutionLayer -> ExecutionLayer) :
  (forall e, R e (f e)) -> steps_to R (modify f).
Proof. intros H e. apply H. Qed.

Lemma steps_emit (x : Effect) :
  (forall e, R e (with_trace (trace e ++ [x]) e)) -> steps_to R (emit x).
Proof. intros H e. apply H. Qed.

Lemma steps_call {A} (x : Effect) (answer : nat -> A) :
  (forall e, R e (with_trace (trace e ++ [x]) e)) -> steps_to R (call x answer).
Proof. intros H e. apply H. Qed.

Lemma steps_alloc (ni : nodeInfo) :
  (forall e, R e (with_heap (heap e ++ [ni]) e)) -> steps_to R (alloc ni).
Proof. intros H e. apply H. Qed.

Lemma steps_assign (ptr : loc) (ni : nodeInfo) :
  (forall e, R e (with_heap (<[ptr := ni]> (heap e)) e)) ->
  steps_to R (assign ptr ni).
Proof.
  intros H e. unfold assign. destruct (heap e !! ptr); cbn; [apply H | reflexivity].
Qed.

End Steps.

(** One step through a computation built from the primitives; [side] proves
    the facts about the relation that a write needs. *)
Ltac steps_step pre side :=
  first
    [ apply (steps_bind _ pre); [| intros ?]
    | apply (steps_ret _ pre) | apply (steps_panic _ pre)
    | apply (steps_gets _ pre) | apply (steps_deref _ pre)
    | apply (steps_topicAt _ pre) | apply (steps_contractAddr _ pre)
    | apply steps_emit; solve [side] | apply steps_call; solve [side]
    | apply steps_alloc; solve [side]
    | apply (steps_assign _ pre); solve [side]
    | apply steps_modify; solve [side]
    | match goal with |- steps_to _ (if ?b then _ else _) => destruct b end
    | match goal with |- steps_to _ (match ?x with _ => _ end) => destruct x end ].

Lemma keys_kept_preorder : PreOrder keys_kept.
Proof.
  split.
  - intros e. split; auto.
  - intros e1 e2 e3 [H1 H2] [H3 H4]. split; auto.
Qed.

Ltac keys_side :=
  intros; split; cbn; intros ? ?; rewrite ?lookup_insert_is_Some'; auto.

Lemma handleNodeEvent_keys (w : World) (event : Log) :
  steps_to keys_kept (handleNodeEvent w event).
Proof.
  unfold handleNodeEvent, nodeIndex_Store, set_feeDistributor,
    set_inSmoothingPool, logDebug, logWarn.
  repeat steps_step keys_kept_preorder keys_side.
Qed.

Lemma handleMinipoolEvent_keys (w : World) (event : Log) :
  steps_to keys_kept (handleMinipoolEvent w event).
Proof.
  unfold handleMinipoolEvent, minipoolIndex_Store, logDebug, logWarn.
  repeat steps_step keys_kept_preorder keys_side.
Qed.

(** What holds of the handlers of the two contracts holds of everything that
    runs them: for a preorder on states that the writes of the trace, of
    highestBlock and of the set-up fields respect. *)
Section Pump.
Variable R : ExecutionLayer -> ExecutionLayer -> Prop.
Hypothesis R_pre : PreOrder R.
Hypothesis R_trace : forall e t, R e (with_trace t e).
Hypothesis R_highestBlock : forall e b, R e (with_highestBlock b e).
Variable w : World.
Hypothesis R_node : forall event, steps_to R (handleNodeEvent w event).
Hypothesis R_minipool : forall event, steps_to R (handleMinipoolEvent w event).

Ltac pump_side :=
  first [ intros; apply R_trace | intros; apply R_highestBlock ].

Lemma handleEvent_steps (event : Log) : steps_to R (handleEvent w event).
Proof.
  unfold handleEvent, logWarn.
  repeat first [ apply R_node | apply R_minipool | steps_step R_pre pump_side ].
Qed.

Lemma backfillEvents_steps : steps_to R (backfillEvents w).
Proof.
  unfold backfillEvents, logDebug.
  repeat first [ apply (steps_forM_ _ R_pre); intros ?; apply handleEvent_steps
               | steps_step R_pre pump_side ].
Qed.

Hypothesis R_cb : forall e cb, R e (with_ethclientShutdownCb cb e).

Ltac loop_side := first [ pump_side | intros; apply R_cb ].

Lemma reconnectLoop_steps (n : nat) : forall i, steps_to R (reconnectLoop w n i).
Proof.
  induction n as [| n IH]; intros i; cbn [reconnectLoop];
    unfold logPanic, logWarn, sleep, setECShutdownCb.
  - repeat steps_step R_pre loop_side.
  - repeat first [ apply IH | apply backfillEvents_steps
                 | steps_step R_pre loop_side ].
Qed.

Lemma handleSubscriptionError_steps (err : error)
    (subs : Subscription * Subscription) :
  steps_to R (handleSubscriptionError w err subs).
Proof.
  unfold handleSubscriptionError, logWarn.
  repeat first [ apply reconnectLoop_steps | steps_step R_pre loop_side ].
Qed.

Lemma loopEnd_steps (l : Locals) : steps_to R (loopEnd l).
Proof. unfold loopEnd, logDebug. repeat steps_step R_pre loop_side. Qed.

Lemma iteration_steps (l : Locals) (s : Select) : steps_to R (iteration w l s).
Proof.
  unfold iteration, logDebug.
  repeat first [ apply handleSubscriptionError_steps | apply handleEvent_steps
               | apply loopEnd_steps | steps_step R_pre loop_side ].
Qed.

Lemma ingest_steps (ss : list Select) : forall l, steps_to R (ingest w l ss).
Proof.
  induction ss as [| s ss IH]; intros l; cbn [ingest].
  - apply (steps_ret _ R_pre).
  - apply (steps_bind _ R_pre); [apply iteration_steps |].
    intros [l' |]; [apply IH | apply (steps_ret _ R_pre)].
Qed.

Hypothesis R_topics : forall e t1 t2 t3, R e (with_topics t1 t2 t3 e).
Hypothesis R_query : forall e q, R e (with_query q e).
Hypothesis R_contracts : forall e nm mm sp, R e (with_contracts nm mm sp e).
Hypothesis R_ingestor : forall e g, R e (with_ingestor g e).
Hypothesis R_preload :
  forall opts nodes count, steps_to R (preload w opts nodes count).

Ltac init_side :=
  first [ loop_side | intros; apply R_topics | intros; apply R_query
        | intros; apply R_contracts | intros; apply R_ingestor ].

Lemma ecEventsConnect_steps (opts : option CallOpts) :
  steps_to R (ecEventsConnect w opts).
Proof.
  unfold ecEventsConnect, logDebug, setECShutdownCb.
  repeat first [ apply backfillEvents_steps | steps_step R_pre init_side ].
Qed.

Lemma Init_steps : steps_to R (Init w).
Proof.
  unfold Init, logDebug.
  repeat first [ apply ecEventsConnect_steps | apply R_preload
               | steps_step R_pre init_side ].
Qed.

End Pump.

(** ** The indices and their pointers *)

Lemma keeps_preorder (I : ExecutionLayer -> Prop) : PreOrder (keeps I).
Proof. split; unfold keeps; [intros e; auto | intros e1 e2 e3; auto]. Qed.

Lemma pending_sound (ptr : loc) (e : ExecutionLayer) : pending ptr e -> sound e.
Proof. now intros [H _]. Qed.

Lemma alloc_pending (ni : nodeInfo) (e : ExecutionLayer) :
  sound e -> pending (length (heap e)) (with_heap (heap e ++ [ni]) e).
Proof.
  intros [Hwf Hinj]. split; [split |]; cbn.
  - intros a ptr Ha. rewrite length_app. specialize (Hwf a ptr Ha). lia.
  - exact Hinj.
  - rewrite length_app. cbn. split; [lia |].
    intros a Ha. specialize (Hwf a _ Ha). lia.
Qed.

Lemma store_pending (a : Address) (ptr : loc) (e : ExecutionLayer) :
  pending ptr e -> sound (with_nodeIndex (<[a := ptr]> (nodeIndex e)) e).
Proof.
  intros [[Hwf Hinj] [Hlt Hfresh]]. split; cbn.
  - intros b p. rewrite lookup_insert.
    destruct (decide (a = b)); [intros [= <-]; exact Hlt | apply Hwf].
  - intros b c p. rewrite !lookup_insert.
    destruct (decide (a = b)) as [Hab | Hab], (decide (a = c)) as [Hac | Hac].
    + congruence.
    + intros [= <-] Hc. exfalso. exact (Hfresh c Hc).
    + intros Hb [= <-]. exfalso. exact (Hfresh b Hb).
    + apply Hinj.
Qed.

Lemma sound_heap (h : list nodeInfo) (e : ExecutionLayer) :
  (length (heap e) <= length h)%nat -> sound e -> sound (with_heap h e).
Proof.
  intros Hle [Hwf Hinj]. split; cbn; [| exact Hinj].
  intros a ptr Ha. specialize (Hwf a ptr Ha). lia.
Qed.

Lemma pending_heap (ptr : loc) (h : list nodeInfo) (e : ExecutionLayer) :
  (length (heap e) <= length h)%nat -> pending ptr e -> pending ptr (with_heap h e).
Proof.
  intros Hle (Hs & Hlt & Hfresh). split; [now apply sound_heap |].
  cbn. split; [lia | exact Hfresh].
Qed.

(** The writes that do not touch the node index keep [sound] and
    [pending]. *)
Ltac sound_side :=
  let H := fresh "H" in
  intros; unfold keeps; intros H;
  first [ exact H
        | apply sound_heap; [rewrite ?length_app, ?length_insert; lia | exact H]
        | apply pending_heap; [rewrite ?length_app, ?length_insert; lia | exact H] ].

Lemma then_stored {A B} (ptr : loc) (m : M A) (k : A -> M B) :
  steps_to (keeps (pending ptr)) m ->
  (forall a e, pending ptr e -> sound (final (k a e))) ->
  forall e, pending ptr e -> sound (final (bind m k e)).
Proof.
  intros Hm Hk e He. unfold bind. specialize (Hm e He).
  destruct (m e) as [a e1 | msg e1]; cbn in Hm |- *;
    [now apply Hk | now apply pending_sound in Hm].
Qed.

Lemma handleNodeEvent_sound (w : World) (event : Log) :
  steps_to (keeps sound) (handleNodeEvent w event).
Proof.
  unfold handleNodeEvent, set_feeDistributor, set_inSmoothingPool, logWarn.
  apply (steps_bind _ (keeps_preorder _)); [apply (steps_topicAt _ (keeps_preorder _)) |].
  intros topic0.
  apply (steps_bind _ (keeps_preorder _)); [apply (steps_gets _ (keeps_preorder _)) |].
  intros registered. destruct (topic0 =? registered).
  - intros e He. unfold bind at 1. unfold alloc. cbv beta iota.
    apply (then_stored (length (heap e)));
      [apply (steps_topicAt _ (keeps_preorder _)) | | now apply alloc_pending].
    intros topic1 e1 H1. unfold bind, nodeIndex_Store, modify, logDebug, emit, modify.
    cbn [final]. apply (store_pending (BytesToAddress topic1)) in H1.
    exact H1.
  - unfold logDebug. repeat steps_step (keeps_preorder sound) sound_side.
Qed.

Lemma handleMinipoolEvent_sound (w : World) (event : Log) :
  steps_to (keeps sound) (handleMinipoolEvent w event).
Proof.
  unfold handleMinipoolEvent, minipoolIndex_Store, logDebug, logWarn.
  repeat steps_step (keeps_preorder sound) sound_side.
Qed.

Lemma storeMinipools_sound (n : Address) (minipools : list ValidatorPubkey) :
  steps_to (keeps sound) (storeMinipools n minipools).
Proof.
  unfold storeMinipools. apply (steps_forM_ _ (keeps_preorder _)). intros p.
  unfold minipoolIndex_Store. steps_step (keeps_preorder sound) sound_side.
Qed.

Lemma preload_sound (w : World) (opts : option CallOpts) (nodes : list Address) :
  forall count, steps_to (keeps sound) (preload w opts nodes count).
Proof.
  induction nodes as [| n nodes IH]; intros count; cbn [preload].
  - apply (steps_ret _ (keeps_preorder _)).
  - intros e He. unfold bind at 1, alloc. cbv beta iota.
    set (ptr := length (heap e)).
    apply (then_stored ptr); [apply steps_call; sound_side | | now apply alloc_pending].
    intros r e1 H1.
    apply (then_stored ptr);
      [unfold set_inSmoothingPool;
       repeat steps_step (keeps_preorder (pending ptr)) sound_side | | exact H1].
    intros _ e2 H2. destruct r as [b | err]; [| exact (pending_sound ptr _ H2)].
    apply (then_stored ptr); [apply steps_call; sound_side | | exact H2].
    intros r e3 H3.
    apply (then_stored ptr);
      [unfold set_feeDistributor;
       repeat steps_step (keeps_preorder (pending ptr)) sound_side | | exact H3].
    intros _ e4 H4. destruct r as [a | err]; [| exact (pending_sound ptr _ H4)].
    unfold bind at 1, nodeIndex_Store, modify. cbv beta iota.
    apply (store_pending n) in H4. revert H4.
    match goal with
    | |- sound ?X -> sound (final (?k ?X)) =>
        assert (Hk : steps_to (keeps sound) k); [| exact (Hk X)]
    end.
    repeat first [ apply IH | apply storeMinipools_sound
                 | apply steps_call; sound_side
                 | steps_step (keeps_preorder sound) sound_side ].
Qed.

Lemma storeMinipools_keys (n : Address) (minipools : list ValidatorPubkey) :
  steps_to keys_kept (storeMinipools n minipools).
Proof.
  unfold storeMinipools. apply (steps_forM_ _ keys_kept_preorder). intros p.
  unfold minipoolIndex_Store. steps_step keys_kept_preorder keys_side.
Qed.

Lemma preload_keys (w : World) (opts : option CallOpts) (nodes : list Address) :
  forall count, steps_to keys_kept (preload w opts nodes count).
Proof.
  induction nodes as [| n nodes IH]; intros count; cbn [preload];
    unfold set_inSmoothingPool, set_feeDistributor, nodeIndex_Store.
  - apply (steps_ret _ keys_kept_preorder).
  - repeat first [ apply IH | apply storeMinipools_keys
                 | steps_step keys_kept_preorder keys_side ].
Qed.

(** X1: no turn of the goroutine, whatever it receives (logs, headers, closed
    channels, subscription errors with the reconnection and back-fill they
    start), and no run of [Init] or [Deinit], removes a key from the minipool
    index or from the node index. *)
Theorem indices_never_lose_a_key (w : World) :
  (forall l ss e, keys_kept e (final (ingest w l ss e)))
  /\ (forall e, keys_kept e (final (Init w e)))
  /\ (forall e, keys_kept e (final (Deinit e))).
Proof.
  split; [| split].
  - intros l ss. revert l.
    apply (ingest_steps keys_kept keys_kept_preorder); try solve [keys_side].
    + apply handleNodeEvent_keys.
    + apply handleMinipoolEvent_keys.
  - apply (Init_steps keys_kept keys_kept_preorder); try solve [keys_side].
    + apply handleNodeEvent_keys.
    + apply handleMinipoolEvent_keys.
    + apply preload_keys.
  - unfold Deinit, logDebug.
    repeat first [ match goal with |- steps_to _ (let (_, _) := ?x in _) => destruct x end
                 | steps_step keys_kept_preorder keys_side ].
Qed.

Lemma NewExecutionLayer_sound (url storage : string) :
  sound (NewExecutionLayer url storage).
Proof. split; cbn; intros *; now rewrite lookup_empty. Qed.

Lemma Init_sound (w : World) (e : ExecutionLayer) :
  sound e -> sound (final (Init w e)).
Proof.
  revert e.
  apply (Init_steps (keeps sound) (keeps_preorder _)); try solve [sound_side].
  - apply handleNodeEvent_sound.
  - apply handleMinipoolEvent_sound.
  - apply preload_sound.
Qed.

Lemma ingest_sound (w : World) (l : Locals) (ss : list Select) (e : ExecutionLayer) :
  sound e -> sound (final (ingest w l ss e)).
Proof.
  revert l e.
  apply (ingest_steps (keeps sound) (keeps_preorder _)); try solve [sound_side].
  - apply handleNodeEvent_sound.
  - apply handleMinipoolEvent_sound.
Qed.

Lemma loaded_sound : sound Fixture.loaded.
Proof.
  replace Fixture.loaded with (final (Init Fixture.calm Startup.cold))
    by (vm_compute; reflexivity).
  apply Init_sound, NewExecutionLayer_sound.
Qed.

(** X2: the pointers of the node index stay sound. In the state
    [NewExecutionLayer] makes they are; and [Init], and every turn of the
    goroutine, leave them so: each stored pointer is a live record and no two
    addresses share a record. *)
Theorem node_pointers_stay_sound (w : World) :
  (forall url storage, sound (NewExecutionLayer url storage))
  /\ (forall e, sound e -> sound (final (Init w e)))
  /\ (forall l ss e, sound e -> sound (final (ingest w l ss e))).
Proof.
  split; [apply NewExecutionLayer_sound | split].
  - apply Init_sound.
  - intros l ss e. apply ingest_sound.
Qed.

Lemma node_pointers_stay_sound_witness :
  sound (final (ingest Backfill.ahead Rewind.started
                  [NewHeadersRecv (Some 105); EventsRecv (Some Rewind.late);
                   LogSubscriptionErr "EOF"]
                  (final (Init Fixture.calm Startup.cold)))).
Proof.
  destruct (node_pointers_stay_sound Backfill.ahead) as (_ & _ & Hingest).
  destruct (node_pointers_stay_sound Fixture.calm) as (Hnew & HInit & _).
  exact (Hingest _ _ _ (HInit _ (Hnew "ws://ec" "0x00"))).
Defined.

(** ** Records, owners and logs *)

Lemma SetBytes_snoc (b : list byte) (x : byte) :
  SetBytes (b ++ [x]) = SetBytes b * 256 + Z.of_N (Byte.to_N x).
Proof. unfold SetBytes. now rewrite fold_left_app. Qed.

Lemma byte_range (x : byte) : 0 <= Z.of_N (Byte.to_N x) < 256.
Proof. pose proof (Byte.to_N_bounded x). lia. Qed.

Lemma SetBytes_nonneg (b : list byte) : 0 <= SetBytes b.
Proof.
  induction b as [| x b IH] using rev_ind; [reflexivity |].
  rewrite SetBytes_snoc. pose proof (byte_range x). lia.
Qed.

Lemma byte_of_value (x y : byte) : Byte.to_N x = Byte.to_N y -> x = y.
Proof.
  intros H. pose proof (Byte.of_to_N x) as Hx. rewrite H, Byte.of_to_N in Hx.
  now injection Hx.
Qed.

Lemma SetBytes_zero (b : list byte) :
  SetBytes b = 0 <-> b = repeat x00%byte (length b).
Proof.
  induction b as [| x b IH] using rev_ind; [now split |].
  rewrite SetBytes_snoc, length_app, Nat.add_1_r.
  pose proof (SetBytes_nonneg b). pose proof (byte_range x).
  cbn [repeat]. rewrite repeat_cons. split.
  - intros H1. assert (Hb : SetBytes b = 0) by lia.
    assert (Hx : Byte.to_N x = Byte.to_N x00%byte) by (cbn; lia).
    apply byte_of_value in Hx. subst x. f_equal. now apply IH.
  - intros H1. apply app_inj_tail in H1 as [Hb ->].
    apply IH in Hb. rewrite Hb. reflexivity.
Qed.

(** X5: how the handler reads the boolean of a state change. The data of the
    log reads as "in the smoothing pool" exactly when it is the byte 1 behind
    any number of zero bytes: empty data, the value 2, or a 1 followed by
    another byte all read as "not in the smoothing pool". *)
Theorem SetBytes_is_one (b : list byte) :
  (SetBytes b =? 1) = true <->
  exists k, b = repeat x00%byte k ++ [x01%byte].
Proof.
  rewrite Z.eqb_eq. split.
  - destruct b as [| x b] using rev_ind; [discriminate |].
    clear IHb. rewrite SetBytes_snoc.
    pose proof (SetBytes_nonneg b). pose proof (byte_range x).
    intros H1. assert (Hb : SetBytes b = 0) by lia.
    assert (Hx : Byte.to_N x = Byte.to_N x01%byte) by (cbn; lia).
    apply byte_of_value in Hx. subst x.
    exists (length b). f_equal. now apply SetBytes_zero.
  - intros [k ->]. rewrite SetBytes_snoc.
    assert (Hz : SetBytes (repeat x00%byte k) = 0).
    { apply SetBytes_zero. now rewrite repeat_length. }
    rewrite Hz. reflexivity.
Qed.

(** X3: in a state whose pointers are sound and whose smoothing pool contract
    is set, [ValidatorFeeRecipient] does not panic and changes nothing but
    the trace; and an address it returns belongs to the node that the
    minipool index gives for the key: the smoothing pool's when that node's
    record says so, the record's fee distributor otherwise. *)
Theorem ValidatorFeeRecipient_is_safe (e : ExecutionLayer)
    (p : ValidatorPubkey) (q : option Address) (sp : Contract) :
  sound e ->
  smoothingPool e = Some sp ->
  exists r e',
    ValidatorFeeRecipient p q e = Returned r e'
    /\ minipoolIndex e' = minipoolIndex e /\ nodeIndex e' = nodeIndex e
    /\ heap e' = heap e /\ highestBlock e' = highestBlock e
    /\ forall addr, r.1 = Some addr ->
         r.2 = false
         /\ exists n ni,
              minipoolIndex e !! p = Some n /\ nodeRecord e n = Some ni
              /\ addr = if inSmoothingPool ni then ContractAddress sp
                        else feeDistributor ni.
Proof.
  intros [Hwf _] Hsp. unfold ValidatorFeeRecipient, bind, gets.
  destruct (minipoolIndex e !! p) as [n |] eqn:Hp;
    [| do 2 eexists; split; [reflexivity |]; repeat split; discriminate].
  destruct (match q with Some q0 => negb (q0 =? n) | None => false end);
    [do 2 eexists; split; [reflexivity |]; repeat split; discriminate |].
  destruct (nodeIndex e !! n) as [ptr |] eqn:Hn;
    [| do 2 eexists; split; [reflexivity |]; repeat split; discriminate].
  destruct (lookup_lt_is_Some_2 (heap e) ptr (Hwf n ptr Hn)) as [ni Hni].
  unfold deref. rewrite Hni.
  assert (Hrec : nodeRecord e n = Some ni) by (unfold nodeRecord; now rewrite Hn).
  destruct (inSmoothingPool ni) eqn:Hin.
  - unfold contractAddr, bind, gets. rewrite Hsp.
    do 2 eexists. split; [reflexivity |]. repeat split; auto.
    exists n, ni. rewrite Hin. cbn in *. repeat split; congruence.
  - do 2 eexists. split; [reflexivity |]. repeat split; auto.
    exists n, ni. rewrite Hin. cbn in *. repeat split; congruence.
Qed.

Lemma ValidatorFeeRecipient_is_safe_witness :
  exists r e',
    ValidatorFeeRecipient Fixture.P1 None
      (final (Init Fixture.calm Startup.cold)) = Returned r e'.
Proof.
  destruct (ValidatorFeeRecipient_is_safe (final (Init Fixture.calm Startup.cold))
              Fixture.P1 None {| ContractAddress := Fixture.SP |})
    as (r & e' & H & _).
  - apply Init_sound, NewExecutionLayer_sound.
  - vm_compute. reflexivity.
  - exists r, e'. exact H.
Defined.

(** X4: a state change of a node that is in the index, in a state whose
    pointers are sound, makes no call: it sets the flag of that node's record
    to what the data reads as, keeps its fee distributor, and leaves the
    record of every other node, and both indices, as they were. *)
Theorem StateChanged_touches_one_record (w : World) (e : ExecutionLayer)
    (event : Log) (topic0 topic1 : Hash) (rest : list Hash) (old : nodeInfo) :
  sound e ->
  Topics event = topic0 :: topic1 :: rest ->
  topic0 <> nodeRegisteredTopic e ->
  topic0 = smoothingPoolStatusChangedTopic e ->
  nodeRecord e (BytesToAddress topic1) = Some old ->
  exists e',
    handleNodeEvent w event e = Returned tt e'
    /\ nodeRecord e' (BytesToAddress topic1)
       = Some {| inSmoothingPool := (SetBytes (Data event) =? 1);
                 feeDistributor := feeDistributor old |}
    /\ (forall a, a <> BytesToAddress topic1 -> nodeRecord e' a = nodeRecord e a)
    /\ nodeIndex e' = nodeIndex e /\ minipoolIndex e' = minipoolIndex e
    /\ since e e' =
       [ELog DebugLevel "Node SP status changed"
          [zap_String "addr" (BytesToAddress topic1);
           zap_Bool "in_sp" (SetBytes (Data event) =? 1)]].
Proof.
  intros [Hwf Hinj] HT Hne Heq Hold.
  unfold nodeRecord in Hold.
  destruct (nodeIndex e !! BytesToAddress topic1) as [ptr |] eqn:Hptr;
    [| discriminate].
  unfold handleNodeEvent, topicAt. rewrite HT. cbn [lookup list_lookup].
  unfold bind at 1. unfold ret at 1. unfold bind at 1, gets at 1.
  apply Z.eqb_neq in Hne. rewrite Hne.
  unfold bind at 1, gets at 1. rewrite <- Heq, Z.eqb_refl.
  unfold bind at 1, ret at 1. unfold bind at 1, gets at 1. rewrite Hptr.
  unfold bind at 1, ret at 1. unfold bind at 1, logDebug, emit, modify.
  unfold set_inSmoothingPool, bind, deref, assign.
  cbn [heap with_trace]. rewrite Hold. cbn [heap with_trace]. rewrite Hold.
  eexists. split; [reflexivity |]. unfold nodeRecord. cbn.
  rewrite Hptr. pose proof (lookup_lt_Some _ _ _ Hold) as Hlt.
  rewrite list_lookup_insert_eq by exact Hlt.
  split; [reflexivity |]. split; [| split; [reflexivity | split; [reflexivity |]]].
  - intros a Ha. destruct (nodeIndex e !! a) as [pa |] eqn:Hpa; [| reflexivity].
    rewrite list_lookup_insert_ne; [reflexivity |].
    intros <-. apply Ha. symmetry. exact (Hinj _ _ _ Hptr Hpa).
  - unfold since. cbn. now rewrite drop_app_length.
Qed.

Lemma StateChanged_touches_one_record_witness :
  nodeRecord
    (final (handleNodeEvent Fixture.calm
              {| LogAddress := Fixture.NM;
                 Topics := [Keccak256Hash_NodeSmoothingPoolStateChanged; Fixture.N1];
                 Data := Fixture.abi_true; BlockNumber := 101 |}
              Fixture.loaded)) Fixture.N1
  = Some {| inSmoothingPool := true; feeDistributor := Fixture.F1 |}.
Proof.
  destruct (StateChanged_touches_one_record Fixture.calm Fixture.loaded
              {| LogAddress := Fixture.NM;
                 Topics := [Keccak256Hash_NodeSmoothingPoolStateChanged; Fixture.N1];
                 Data := Fixture.abi_true; BlockNumber := 101 |}
              Keccak256Hash_NodeSmoothingPoolStateChanged Fixture.N1 []
              {| inSmoothingPool := false; feeDistributor := Fixture.F1 |})
    as (e' & Hrun & Hrec & _).
  - exact loaded_sound.
  - reflexivity.
  - discriminate.
  - reflexivity.
  - vm_compute. reflexivity.
  - rewrite Hrun. exact Hrec.
Defined.

(** X6: a [MinipoolCreated] log of the minipool manager whose details are
    fetched puts the validator key under the node of the log, replacing any
    owner recorded before, and touches no other key, the node index or the
    records; a query for the key that names another node is then answered
    with the mismatch flag. *)
Theorem MinipoolCreated_records_owner (w : World) (e : ExecutionLayer)
    (event : Log) (nm mm : Contract) (topic1 topic2 : Hash) (rest : list Hash)
    (pubkey : ValidatorPubkey) :
  rocketNodeManager e = Some nm ->
  rocketMinipoolManager e = Some mm ->
  ContractAddress nm <> LogAddress event ->
  ContractAddress mm = LogAddress event ->
  Topics event = minipoolLaunchedTopic e :: topic1 :: topic2 :: rest ->
  GetMinipoolDetails w (length (trace e)) (BytesToAddress topic1) None = Ok pubkey ->
  exists e',
    handleEvent w event e = Returned tt e'
    /\ minipoolIndex e' !! pubkey = Some (BytesToAddress topic2)
    /\ (forall p, p <> pubkey -> minipoolIndex e' !! p = minipoolIndex e !! p)
    /\ nodeIndex e' = nodeIndex e /\ heap e' = heap e
    /\ (forall q, q <> BytesToAddress topic2 ->
          ValidatorFeeRecipient pubkey (Some q) e' = Returned (None, true) e').
Proof.
  intros Hnm Hmm Hne Heq HT Hok.
  apply Z.eqb_neq in Hne.
  unfold handleEvent, handleMinipoolEvent, contractAddr, topicAt.
  rewrite HT. destruct e. cbn in Hnm, Hmm, Hok, Hne, Heq |- *. subst.
  go_simpl. rewrite Hne, Heq, !Z.eqb_refl. go_simpl. cbn [negb].
  rewrite Hok. go_simpl.
  eexists. split; [reflexivity |]. cbn.
  split; [apply lookup_insert_eq |].
  split; [intros p Hp; now apply lookup_insert_ne |].
  do 2 (split; [reflexivity |]).
  intros q Hq. unfold ValidatorFeeRecipient. go_simpl.
  rewrite lookup_insert_eq. apply Z.eqb_neq in Hq. now rewrite Hq.
Qed.

Lemma MinipoolCreated_records_owner_witness :
  exists e',
    handleEvent Fixture.calm Minipools.created Fixture.loaded = Returned tt e'
    /\ minipoolIndex e' !! Fixture.P2 = Some Fixture.N1.
Proof.
  destruct (MinipoolCreated_records_owner Fixture.calm Fixture.loaded
              Minipools.created {| ContractAddress := Fixture.NM |}
              {| ContractAddress := Fixture.MM |} Fixture.MP1 Fixture.N1 []
              Fixture.P2)
    as (e' & Hrun & Hp & _);
    [reflexivity | reflexivity | discriminate | reflexivity | reflexivity
    | reflexivity |].
  exists e'. split; [exact Hrun | exact Hp].
Defined.

(** X7: logs that are too short make the handlers panic. A log of either
    contract without topics, and a [MinipoolCreated] log with fewer than
    three topics, end in an index-out-of-range panic with the state as it
    was: no call is made, and highestBlock is not moved. *)
Theorem short_logs_panic (w : World) (e : ExecutionLayer) (event : Log)
    (nm mm : Contract) :
  rocketNodeManager e = Some nm ->
  rocketMinipoolManager e = Some mm ->
  (ContractAddress nm = LogAddress event \/ ContractAddress mm = LogAddress event) ->
  Topics event = []
  \/ (ContractAddress nm <> LogAddress event
      /\ exists tail, Topics event = minipoolLaunchedTopic e :: tail
                      /\ (length tail < 2)%nat) ->
  handleEvent w event e = Panicked "index out of range" e.
Proof.
  intros Hnm Hmm Haddr Hshort.
  unfold handleEvent, handleNodeEvent, handleMinipoolEvent, contractAddr, topicAt.
  destruct e. cbn in Hnm, Hmm, Haddr, Hshort |- *. subst.
  destruct Hshort as [-> | (Hne & tail & -> & Hlen)].
  - go_simpl. destruct (ContractAddress nm =? LogAddress event) eqn:E1;
      [reflexivity |].
    destruct Haddr as [H | H]; [apply Z.eqb_eq in H; congruence |].
    apply Z.eqb_eq in H. now rewrite H.
  - destruct Haddr as [H | H]; [contradiction |].
    apply Z.eqb_neq in Hne. apply Z.eqb_eq in H.
    go_simpl. rewrite Hne, H. cbn [lookup list_lookup]. go_simpl.
    rewrite Z.eqb_refl. cbn [negb].
    destruct tail as [| t1 [| t2 tail]]; [reflexivity | reflexivity | cbn in Hlen; lia].
Qed.

Lemma short_logs_panic_witness :
  handleEvent Fixture.calm
    {| LogAddress := Fixture.MM;
       Topics := [Keccak256Hash_MinipoolCreated; Fixture.MP1];
       Data := []; BlockNumber := 104 |} Fixture.loaded
  = Panicked "index out of range" Fixture.loaded.
Proof.
  apply (short_logs_panic Fixture.calm Fixture.loaded _
           {| ContractAddress := Fixture.NM |} {| ContractAddress := Fixture.MM |});
    [reflexivity | reflexivity | now right |].
  right. split; [discriminate |]. exists [Fixture.MP1]. split; [reflexivity |].
  cbn. lia.
Defined.

(** X8: logs the handlers do not know are dropped. A log of another address
    (whatever its topics, none included), a log of the node manager whose
    first topic is neither of the two node topics, and a log of the minipool
    manager whose first topic is not the minipool topic, each write one
    warning, leave both indices and the records alone, and still move
    highestBlock to the block of the log. *)
Theorem unknown_logs_are_dropped (w : World) (e : ExecutionLayer) (event : Log)
    (nm mm : Contract) :
  rocketNodeManager e = Some nm ->
  rocketMinipoolManager e = Some mm ->
  (ContractAddress nm <> LogAddress event /\ ContractAddress mm <> LogAddress event)
  \/ (exists topic0 tail,
        Topics event = topic0 :: tail
        /\ ((ContractAddress nm = LogAddress event
             /\ topic0 <> nodeRegisteredTopic e
             /\ topic0 <> smoothingPoolStatusChangedTopic e)
            \/ (ContractAddress nm <> LogAddress event
                /\ ContractAddress mm = LogAddress event
                /\ topic0 <> minipoolLaunchedTopic e))) ->
  exists e' line,
    handleEvent w event e = Returned tt e'
    /\ since e e' = [ELog WarnLevel line.1 line.2]
    /\ minipoolIndex e' = minipoolIndex e /\ nodeIndex e' = nodeIndex e
    /\ heap e' = heap e
    /\ highestBlock e' = Some (int64_of_uint64 (BlockNumber event)).
Proof.
  intros Hnm Hmm Hcase.
  unfold handleEvent, handleNodeEvent, handleMinipoolEvent, contractAddr, topicAt,
    since.
  destruct e. cbn in Hnm, Hmm, Hcase |- *. subst.
  destruct Hcase as [[H1 H2] | (topic0 & tail & -> & [(H1 & H2 & H3) | (H1 & H2 & H3)])].
  - apply Z.eqb_neq in H1, H2. go_simpl. rewrite H1, H2.
    do 2 eexists. split; [reflexivity |]. cbn. rewrite drop_app_length.
    split; [| auto].
    instantiate (1 := (_, _)). reflexivity.
  - apply Z.eqb_eq in H1. apply Z.eqb_neq in H2, H3. go_simpl.
    rewrite H1. cbn [lookup list_lookup]. go_simpl. rewrite H2, H3.
    do 2 eexists. split; [reflexivity |]. cbn. rewrite drop_app_length.
    split; [| auto].
    instantiate (1 := (_, _)). reflexivity.
  - apply Z.eqb_neq in H1, H3. apply Z.eqb_eq in H2. go_simpl.
    rewrite H1, H2. cbn [lookup list_lookup]. go_simpl. rewrite H3. cbn [negb].
    do 2 eexists. split; [reflexivity |]. cbn. rewrite drop_app_length.
    split; [| auto].
    instantiate (1 := (_, _)). reflexivity.
Qed.

Lemma unknown_logs_are_dropped_witness :
  exists e',
    handleEvent Fixture.calm
      {| LogAddress := 0xdead; Topics := []; Data := []; BlockNumber := 120 |}
      Fixture.loaded = Returned tt e'
    /\ highestBlock e' = Some 120.
Proof.
  destruct (unknown_logs_are_dropped Fixture.calm Fixture.loaded
              {| LogAddress := 0xdead; Topics := []; Data := []; BlockNumber := 120 |}
              {| ContractAddress := Fixture.NM |} {| ContractAddress := Fixture.MM |})
    as (e' & line & Hrun & _ & _ & _ & _ & Hhb);
    [reflexivity | reflexivity | left; split; discriminate |].
  exists e'. split; [exact Hrun | exact Hhb].
Defined.

(** ** The goroutine and the shutdown callback *)

(** X9: a header never ends the loop and never lowers highestBlock: the turn
    sets it to the larger of its value and the header's number, writes a line
    only when it raises it, and touches neither index. *)
Theorem header_turn_raises_highestBlock (w : World) (l : Locals) (number hb : Z)
    (e : ExecutionLayer) :
  highestBlock e = Some hb ->
  exists l' e',
    iteration w l (NewHeadersRecv (Some number)) e = Returned (Some l') e'
    /\ highestBlock e' = Some (Z.max hb number)
    /\ minipoolIndex e' = minipoolIndex e /\ nodeIndex e' = nodeIndex e
    /\ heap e' = heap e
    /\ since e e' =
       (if number <=? hb then []
        else [ELog DebugLevel "New block received"
                [zap_Int64 "new height" (big_Int64 number);
                 zap_Int64 "old height" (big_Int64 hb)]])
    /\ logSubscription l' = logSubscription l
    /\ newHeadSubscription l' = newHeadSubscription l.
Proof.
  intros Hhb. unfold iteration, bind, gets, since. rewrite Hhb.
  destruct (number <=? hb) eqn:E.
  - apply Z.leb_le in E. do 2 eexists. split; [reflexivity |].
    rewrite Hhb, drop_all. repeat split. f_equal. lia.
  - apply Z.leb_gt in E. do 2 eexists. split; [reflexivity |]. cbn.
    rewrite drop_app_length. repeat split. f_equal. lia.
Qed.

Lemma header_turn_raises_highestBlock_witness :
  exists l' e',
    iteration Fixture.calm Rewind.started (NewHeadersRecv (Some 99)) Fixture.loaded
      = Returned (Some l') e'
    /\ highestBlock e' = Some 100.
Proof.
  destruct (header_turn_raises_highestBlock Fixture.calm Rewind.started 99 100
              Fixture.loaded eq_refl)
    as (l' & e' & Hrun & Hhb & _).
  exists l', e'. split; [exact Hrun | exact Hhb].
Defined.

Lemma ingest_app (w : World) (ss1 ss2 : list Select) :
  forall (l : Locals) (e : ExecutionLayer),
    ingest w l (ss1 ++ ss2) e =
    (let* l' := ingest w l ss1 in
     match l' with
     | Some l' => ingest w l' ss2
     | None => ret None
     end) e.
Proof.
  induction ss1 as [| s ss1 IH]; intros l e; cbn [ingest app].
  - reflexivity.
  - unfold bind.
    destruct (iteration w l s e) as [[l1 |] e1 | msg e1]; [| reflexivity ..].
    rewrite IH. reflexivity.
Qed.

Lemma ingest_live_returned (w : World) (events : list Log) :
  forall (l : Locals) (e e1 : ExecutionLayer),
    forM_ (handleEvent w) events e = Returned tt e1 ->
    ingest w l (live events) e = Returned (Some (after_logs l events)) e1.
Proof.
  induction events as [| ev events IH]; intros l e e1 Hrun.
  - injection Hrun as <-. reflexivity.
  - cbn in Hrun. apply bind_Returned in Hrun as ([] & e2 & Hev & Hrest).
    cbn [live map ingest iteration]. unfold bind at 1. unfold bind at 1.
    rewrite Hev. cbn [loopEnd andb noMoreEvents]. unfold ret at 1.
    rewrite (IH _ _ _ Hrest). destruct events; reflexivity.
Qed.

(** X10: the logs that are waiting when the channels are closed are still
    handled. When the goroutine receives a run of logs and then finds both
    channels closed, it has handled every log, in order, writes its last line
    and leaves the loop; what it would receive later is not looked at. *)
Theorem waiting_logs_are_drained (w : World) (l : Locals) (events : list Log)
    (later : list Select) (e e1 : ExecutionLayer) (hb : Z) :
  forM_ (handleEvent w) events e = Returned tt e1 ->
  highestBlock e1 = Some hb ->
  ingest w l (live events ++ [EventsRecv None; NewHeadersRecv None] ++ later) e
  = Returned None
      (with_trace
         (trace e1 ++ [ELog DebugLevel "Finished processing events"
                         [zap_Int64 "height" (big_Int64 hb)]]) e1).
Proof.
  intros Hrun Hhb. rewrite ingest_app. unfold bind.
  rewrite (ingest_live_returned w events l e e1 Hrun).
  cbn [app ingest iteration]. unfold bind at 1.
  unfold loopEnd at 1. cbn [noMoreEvents noMoreHeaders andb].
  destruct (noMoreHeaders (after_logs l events)) eqn:Hh.
  - unfold bind, gets. rewrite Hhb. reflexivity.
  - unfold ret at 1. cbn [ingest iteration]. unfold bind at 1.
    unfold loopEnd. cbn [noMoreEvents noMoreHeaders andb].
    unfold bind, gets. rewrite Hhb. reflexivity.
Qed.

Lemma waiting_logs_are_drained_witness :
  exists e',
    ingest Fixture.calm Rewind.started
      (live [Rewind.late; Replay.opted_in_N2]
       ++ [EventsRecv None; NewHeadersRecv None] ++ [NewHeadersRecv (Some 200)])
      Fixture.loaded = Returned None e'
    /\ nodeRecord e' Fixture.N2
       = Some {| inSmoothingPool := true; feeDistributor := 0 |}.
Proof.
  eexists. split.
  - apply (waiting_logs_are_drained Fixture.calm Rewind.started
             [Rewind.late; Replay.opted_in_N2] [NewHeadersRecv (Some 200)]
             Fixture.loaded
             (final (forM_ (handleEvent Fixture.calm)
                       [Rewind.late; Replay.opted_in_N2] Fixture.loaded)) 102);
      vm_compute; reflexivity.
  - vm_compute. reflexivity.
Defined.

Lemma same_callback_preorder : PreOrder same_callback.
Proof.
  split; unfold same_callback; [intros e | intros e1 e2 e3].
  - split; reflexivity.
  - intros [H1 H2] [H3 H4]. split; congruence.
Qed.

Ltac callback_side := intros; split; reflexivity.

Lemma handleNodeEvent_callback (w : World) (event : Log) :
  steps_to same_callback (handleNodeEvent w event).
Proof.
  unfold handleNodeEvent, nodeIndex_Store, set_feeDistributor,
    set_inSmoothingPool, logDebug, logWarn.
  repeat steps_step same_callback_preorder callback_side.
Qed.

Lemma handleMinipoolEvent_callback (w : World) (event : Log) :
  steps_to same_callback (handleMinipoolEvent w event).
Proof.
  unfold handleMinipoolEvent, minipoolIndex_Store, logDebug, logWarn.
  repeat steps_step same_callback_preorder callback_side.
Qed.

Lemma handleEvent_callback (w : World) (event : Log) :
  steps_to same_callback (handleEvent w event).
Proof.
  apply (handleEvent_steps _ same_callback_preorder); try solve [callback_side].
  - apply handleNodeEvent_callback.
  - apply handleMinipoolEvent_callback.
Qed.

Lemma backfillEvents_callback (w : World) : steps_to same_callback (backfillEvents w).
Proof.
  apply (backfillEvents_steps _ same_callback_preorder); try solve [callback_side].
  - apply handleNodeEvent_callback.
  - apply handleMinipoolEvent_callback.
Qed.

Lemma reconnectLoop_callback (w : World) (n : nat) :
  forall i e subs e',
    reconnectLoop w n i e = Returned subs e' ->
    ethclientShutdownCb e' = Some subs.
Proof.
  induction n as [| n IH]; intros i e subs e' Hrun; [discriminate |].
  rewrite reconnectLoop_S in Hrun. cbv zeta in Hrun.
  destruct (SubscribeFilterLogs w _ _) as [s | err]; [| now apply IH in Hrun].
  destruct (SubscribeNewHead w _) as [h | err]; [| discriminate].
  match type of Hrun with
  | context [backfillEvents w ?X] =>
      pose proof (backfillEvents_callback w X) as Hcb;
      destruct (backfillEvents w X) as [[berr |] e3 | msg e3]
  end; try discriminate.
  injection Hrun as <- <-. apply Hcb.
Qed.

(** X11: the shutdown callback follows the goroutine's subscriptions. If the
    callback holds the two subscriptions the goroutine listens to, then after
    any turns the goroutine survives, reconnections included, it holds the
    two the goroutine listens to then: what [Deinit] unsubscribes from is
    what is in use. *)
Theorem callback_follows_subscriptions (w : World) (ss : list Select) :
  forall (l l' : Locals) (e e' : ExecutionLayer),
    ethclientShutdownCb e = Some (logSubscription l, newHeadSubscription l) ->
    ingest w l ss e = Returned (Some l') e' ->
    ethclientShutdownCb e' = Some (logSubscription l', newHeadSubscription l').
Proof.
  assert (Herr : forall err l e subs e1,
            ethclientShutdownCb e = Some (logSubscription l, newHeadSubscription l) ->
            handleSubscriptionError w err (logSubscription l, newHeadSubscription l) e
            = Returned subs e1 ->
            ethclientShutdownCb e1 = Some subs).
  { intros err l e subs e1 Hcb Hrun. unfold handleSubscriptionError, bind, gets in Hrun.
    destruct (shutdown e).
    - injection Hrun as <- <-. exact Hcb.
    - now apply reconnectLoop_callback in Hrun. }
  assert (Hend : forall l0 l1 e0 e1,
            loopEnd l0 e0 = Returned (Some l1) e1 -> l1 = l0 /\ e1 = e0).
  { intros l0 l1 e0 e1. unfold loopEnd, bind, gets.
    destruct (noMoreEvents l0 && noMoreHeaders l0).
    - destruct (highestBlock e0); discriminate.
    - now intros [= <- <-]. }
  induction ss as [| s ss IH]; intros l l' e e' Hcb Hrun.
  - injection Hrun as <- <-. exact Hcb.
  - cbn [ingest] in Hrun. apply bind_Returned in Hrun as (l1 & e1 & Hturn & Hrest).
    destruct l1 as [l1 |]; [| discriminate].
    apply (IH l1 l' e1 e'); [| exact Hrest]. clear IH Hrest.
    destruct s as [err | err | [event |] | [number |]]; cbn [iteration] in Hturn.
    + apply bind_Returned in Hturn as ([] & e2 & Hemit & Hturn).
      injection Hemit as <-.
      apply bind_Returned in Hturn as (subs & e3 & Hrun & Hturn).
      apply Hend in Hturn as [-> ->]. cbn. rewrite <- surjective_pairing.
      exact (Herr err l (with_trace _ e) _ _ Hcb Hrun).
    + apply bind_Returned in Hturn as ([] & e2 & Hemit & Hturn).
      injection Hemit as <-.
      apply bind_Returned in Hturn as (subs & e3 & Hrun & Hturn).
      apply Hend in Hturn as [-> ->]. cbn. rewrite <- surjective_pairing.
      exact (Herr err l (with_trace _ e) _ _ Hcb Hrun).
    + apply bind_Returned in Hturn as ([] & e2 & Hev & Hturn).
      apply Hend in Hturn as [-> ->]. cbn.
      pose proof (handleEvent_callback w event e) as H. rewrite Hev in H.
      cbn in H. destruct H as [H _]. congruence.
    + apply Hend in Hturn as [-> ->]. exact Hcb.
    + apply bind_Returned in Hturn as (hb & e2 & Hget & Hturn).
      injection Hget as <- <-.
      destruct (highestBlock e) as [hb |]; [| discriminate].
      destruct (number <=? hb).
      * injection Hturn as <- <-. exact Hcb.
      * injection Hturn as <- <-. exact Hcb.
    + apply Hend in Hturn as [-> ->]. exact Hcb.
Qed.

Lemma callback_follows_subscriptions_witness :
  exists l' e',
    ingest Outage.headersLate Rewind.started
      [EventsRecv (Some Rewind.late); LogSubscriptionErr "EOF"] Fixture.loaded
    = Returned (Some l') e'
    /\ logSubscription l' = 3%nat /\ newHeadSubscription l' = 4%nat
    /\ ethclientShutdownCb e' = Some (logSubscription l', newHeadSubscription l').
Proof.
  do 2 eexists. split; [vm_compute; reflexivity |].
  split; [reflexivity |]. split; [reflexivity |].
  apply (callback_follows_subscriptions Outage.headersLate
           [EventsRecv (Some Rewind.late); LogSubscriptionErr "EOF"]
           Rewind.started _ Fixture.loaded);
    vm_compute; reflexivity.
Defined.



(** ** Start-up *)

Section Guarded.
Variable R : ExecutionLayer -> ExecutionLayer -> Prop.
Hypothesis R_pre : PreOrder R.

Lemma guarded_ret {A} (V : A -> Prop) (a : A) : guarded V R (ret a).
Proof. intros e a' e' [= <- <-] _. reflexivity. Qed.

Lemma guarded_bind {A B} (V : B -> Prop) (m : M A) (k : A -> M B) :
  steps_to R m -> (forall a, guarded V R (k a)) -> guarded V R (bind m k).
Proof.
  intros Hm Hk e b e' Hrun Hb.
  apply bind_Returned in Hrun as (a & e1 & H1 & H2).
  specialize (Hm e). rewrite H1 in Hm. cbn in Hm.
  etransitivity; [exact Hm | exact (Hk a e1 b e' H2 Hb)].
Qed.

Lemma guarded_never {A} (V : A -> Prop) (m : M A) :
  (forall e a e', m e = Returned a e' -> ~ V a) -> guarded V R m.
Proof. intros H e a e' Hrun Ha. now destruct (H e a e' Hrun). Qed.
End Guarded.

Lemma only_snapshot_preorder : PreOrder only_snapshot.
Proof.
  split.
  - intros e. split; [exists []; now rewrite app_nil_r | now split].
  - intros e1 e2 e3 ((n1 & H1 & F1) & [C1 I1] & B1) ((n2 & H2 & F2) & [C2 I2] & B2).
    split; [| split; [split |]; congruence].
    exists (n1 ++ n2). rewrite H2, H1, app_assoc. split; [reflexivity |].
    now apply Forall_app.
Qed.

(** The steps of the snapshot: an effect of the snapshot, or a write of the
    indices, the records or the contracts. *)
Ltac snapshot_side :=
  intros;
  first
    [ split; [eexists [_]; split; [reflexivity | repeat constructor]
             | split; [split |]; reflexivity]
    | split; [exists []; split; [symmetry; apply app_nil_r | constructor]
             | split; [split |]; reflexivity] ].

Lemma preload_snapshot (w : World) (opts : option CallOpts) (nodes : list Address) :
  forall count, steps_to only_snapshot (preload w opts nodes count).
Proof.
  induction nodes as [| n nodes IH]; intros count; cbn [preload];
    unfold set_inSmoothingPool, set_feeDistributor, nodeIndex_Store,
      storeMinipools, minipoolIndex_Store.
  - apply (steps_ret _ only_snapshot_preorder).
  - repeat first [ apply IH
                 | apply (steps_forM_ _ only_snapshot_preorder); intros ?
                 | steps_step only_snapshot_preorder snapshot_side ].
Qed.

(** X13: when [Init] returns an error, it has not tried to connect: up to
    then it has only dialled, asked for the header and read the contracts;
    no subscription was asked for, no goroutine started, no shutdown callback
    stored, and highestBlock is as it was. *)
Theorem Init_error_means_not_connected (w : World) (e e' : ExecutionLayer)
    (err : error) :
  Init w e = Returned (Some err) e' ->
  Forall snapshot_effect (since e e')
  /\ ingestor e' = ingestor e
  /\ ethclientShutdownCb e' = ethclientShutdownCb e
  /\ highestBlock e' = highestBlock e.
Proof.
  intros Hrun.
  assert (H : guarded (fun r => r <> None) only_snapshot (Init w)).
  { unfold Init, logDebug.
    repeat first
      [ apply (guarded_ret _ only_snapshot_preorder)
      | apply guarded_never; intros e0 r e1 H0;
        apply bind_Returned in H0 as (? & ? & _ & [= <- _]); intros Hr; now apply Hr
      | apply (guarded_bind _ only_snapshot_preorder);
        [first [ apply preload_snapshot
               | steps_step only_snapshot_preorder snapshot_side ]
        | intros ?]
      | match goal with |- guarded _ _ (match ?x with _ => _ end) => destruct x end ]. }
  destruct (H e (Some err) e' Hrun ltac:(discriminate))
    as ((new & Ht & HF) & [Hcb Hin] & Hhb).
  rewrite (since_app _ _ _ Ht). auto.
Qed.

Lemma Init_error_means_not_connected_witness :
  exists e',
    Init Outage.headerDown Startup.cold = Returned (Some "timeout") e'
    /\ ingestor e' = None.
Proof.
  eexists. split; [vm_compute; reflexivity |].
  apply (Init_error_means_not_connected Outage.headerDown Startup.cold _ "timeout").
  vm_compute. reflexivity.
Defined.

Lemma ensures_bind {A B} (V : B -> Prop) (Q : ExecutionLayer -> Prop)
    (m : M A) (k : A -> M B) :
  (forall a, ensures V Q (k a)) -> ensures V Q (bind m k).
Proof.
  intros Hk e b e' Hrun Hb.
  apply bind_Returned in Hrun as (a & e1 & _ & H2). exact (Hk a e1 b e' H2 Hb).
Qed.

Lemma ensures_never {A} (V : A -> Prop) (Q : ExecutionLayer -> Prop) (m : M A) :
  (forall e a e', m e = Returned a e' -> ~ V a) -> ensures V Q m.
Proof. intros H e a e' Hrun Ha. now destruct (H e a e' Hrun). Qed.

Lemma ecEventsConnect_error (w : World) (opts : option CallOpts) :
  guarded (fun r => r <> None) same_callback (ecEventsConnect w opts).
Proof.
  unfold ecEventsConnect, logDebug, setECShutdownCb.
  repeat first
    [ apply (guarded_ret _ same_callback_preorder)
    | apply guarded_never; intros e0 r e1 H0; intros Hr; apply Hr;
      revert H0; unfold bind, modify, emit, ret; now intros [= <- _]
    | apply (guarded_never _ _ (panic _)); intros ? ? ?; discriminate
    | apply (guarded_bind _ same_callback_preorder);
      [first [ apply backfillEvents_callback
             | solve [repeat steps_step same_callback_preorder callback_side] ]
      | intros ?]
    | match goal with |- guarded _ _ (match ?x with _ => _ end) => destruct x end ].
Qed.

Lemma ecEventsConnect_success (w : World) (opts : option CallOpts) :
  ensures (fun r => r = None) connected (ecEventsConnect w opts).
Proof.
  unfold ecEventsConnect, logDebug, setECShutdownCb.
  repeat first
    [ apply ensures_never; intros e0 r e1 [= <- _]; discriminate
    | apply (ensures_never _ _ (panic _)); intros ? ? ?; discriminate
    | intros e0 r e1; unfold bind, modify, emit, ret; intros [= <- <-] _;
      do 3 eexists; split; [reflexivity | split; reflexivity]
    | match goal with
      | |- ensures _ _ (bind (backfillEvents _) _) => apply ensures_bind; intros ?
      | |- ensures _ _ (bind (call _ _) _) => apply ensures_bind; intros ?
      | |- ensures _ _ (bind (modify (with_topics _ _ _)) _) => apply ensures_bind; intros ?
      | |- ensures _ _ (bind (modify (with_query _)) _) => apply ensures_bind; intros ?
      | |- ensures _ _ (bind (modify (with_highestBlock _)) _) => apply ensures_bind; intros ?
      | |- ensures _ _ (bind (contractAddr _) _) => apply ensures_bind; intros ?
      | |- ensures _ _ (bind (gets _) _) => apply ensures_bind; intros ?
      | |- ensures _ _ (bind (emit (ELog _ _ _)) _) => apply ensures_bind; intros ?
      | |- ensures _ _ (match ?x with _ => _ end) => destruct x
      end ].
Qed.

(** X14: [ecEventsConnect] either connects or leaves the shutdown callback
    alone. When it returns nil, the callback holds the two subscriptions the
    goroutine was started on, and starting it was the last effect. When it
    returns an error the callback and the goroutine are as before the call:
    entered with no callback, a later [Deinit] does nothing, so a log
    subscription opened before the failure is never unsubscribed. *)
Theorem ecEventsConnect_connects_or_leaves (w : World) (opts : option CallOpts)
    (e e' : ExecutionLayer) (r : option error) :
  ecEventsConnect w opts e = Returned r e' ->
  match r with
  | None => connected e'
  | Some _ =>
      ethclientShutdownCb e' = ethclientShutdownCb e
      /\ ingestor e' = ingestor e
      /\ (ethclientShutdownCb e = None -> Deinit e' = Returned tt e')
  end.
Proof.
  intros Hrun. destruct r as [err |].
  - destruct (ecEventsConnect_error w opts e _ e' Hrun ltac:(discriminate))
      as [Hcb Hin].
    split; [exact Hcb | split; [exact Hin |]].
    intros Hnone. unfold Deinit, bind, gets. now rewrite Hcb, Hnone.
  - exact (ecEventsConnect_success w opts e _ e' Hrun eq_refl).
Qed.

Lemma ecEventsConnect_connects_or_leaves_witness :
  exists e',
    ecEventsConnect Outage.headersLate (Some {| OptsBlockNumber := Some 100 |})
      unconnected = Returned (Some "timeout") e'
    /\ Deinit e' = Returned tt e'.
Proof.
  eexists. split; [vm_compute; reflexivity |].
  apply (ecEventsConnect_connects_or_leaves Outage.headersLate
           (Some {| OptsBlockNumber := Some 100 |}) unconnected _
           (Some "timeout"));
    vm_compute; reflexivity.
Defined.

Lemma storeMinipools_run (n : Address) (minipools : list ValidatorPubkey) :
  forall e,
    storeMinipools n minipools e =
    Returned tt
      (with_minipoolIndex
         (foldl (fun m p => <[p := n]> m) (minipoolIndex e) minipools) e).
Proof.
  unfold storeMinipools.
  induction minipools as [| p ps IH]; intros e; cbn [forM_ foldl].
  - now destruct e.
  - unfold bind, minipoolIndex_Store, modify. rewrite IH. now destruct e.
Qed.

Lemma lookup_fresh {A} (h : list A) (x : A) : (h ++ [x]) !! length h = Some x.
Proof. now apply list_lookup_middle. Qed.

Lemma insert_fresh {A} (h : list A) (x y : A) :
  <[length h := y]> (h ++ [x]) = h ++ [y].
Proof.
  rewrite insert_app_r_alt by lia. now rewrite Nat.sub_diag.
Qed.

Lemma set_inSmoothingPool_fresh (h : list nodeInfo) (x : nodeInfo) (b : bool)
    (e : ExecutionLayer) :
  heap e = h ++ [x] ->
  set_inSmoothingPool (length h) b e =
  Returned tt
    (with_heap (h ++ [{| inSmoothingPool := b;
                         feeDistributor := feeDistributor x |}]) e).
Proof.
  intros H. unfold set_inSmoothingPool, bind, deref, assign.
  rewrite H, lookup_fresh. cbv beta iota.
  now rewrite H, lookup_fresh, insert_fresh.
Qed.

Lemma set_feeDistributor_fresh (h : list nodeInfo) (x : nodeInfo) (a : Address)
    (e : ExecutionLayer) :
  heap e = h ++ [x] ->
  set_feeDistributor (length h) a e =
  Returned tt
    (with_heap (h ++ [{| inSmoothingPool := inSmoothingPool x;
                         feeDistributor := a |}]) e).
Proof.
  intros H. unfold set_feeDistributor, bind, deref, assign.
  rewrite H, lookup_fresh. cbv beta iota.
  now rewrite H, lookup_fresh, insert_fresh.
Qed.

Lemma preload_cons (w : World) (opts : option CallOpts) (n : Address)
    (nodes : list Address) (count : Z) (e : ExecutionLayer)
    (b : bool) (d : Address) (ps : list ValidatorPubkey) :
  GetSmoothingPoolRegistrationState w (length (trace e)) n opts = Ok b ->
  GetDistributorAddress w (S (length (trace e))) n opts = Ok d ->
  GetNodeMinipools w (S (S (length (trace e)))) n opts = Ok ps ->
  preload w opts (n :: nodes) count e =
  preload w opts nodes (count + Z.of_nat (length ps))
    (with_minipoolIndex (foldl (fun m p => <[p := n]> m) (minipoolIndex e) ps)
       (with_nodeIndex (<[n := length (heap e)]> (nodeIndex e))
          (with_heap (heap e ++ [{| inSmoothingPool := b; feeDistributor := d |}])
             (with_trace
                (trace e ++ [EGetSmoothingPoolRegistrationState n opts;
                             EGetDistributorAddress n opts;
                             EGetNodeMinipools n opts]) e)))).
Proof.
  intros Hsp Hdist Hpools. cbn [preload].
  unfold bind at 1. unfold alloc at 1.
  unfold bind at 1. unfold call at 1. cbn [trace with_heap]. rewrite Hsp.
  unfold bind at 1.
  rewrite (set_inSmoothingPool_fresh (heap e) zeroNodeInfo) by now destruct e.
  unfold bind at 1. unfold call at 1.
  replace (length (trace _)) with (S (length (trace e)))
    by (destruct e; cbn; rewrite length_app; cbn; lia).
  rewrite Hdist. unfold bind at 1.
  rewrite (set_feeDistributor_fresh (heap e) _) by now destruct e.
  unfold bind at 1. unfold nodeIndex_Store at 1, modify at 1.
  unfold bind at 1. unfold call at 1.
  replace (length (trace _)) with (S (S (length (trace e))))
    by (destruct e; cbn; rewrite !length_app; cbn; lia).
  rewrite Hpools. unfold bind at 1. rewrite storeMinipools_run.
  f_equal. destruct e. cbn. now rewrite <- !app_assoc.
Qed.

Lemma stored_last (n : Address) (ps : list ValidatorPubkey) (p : ValidatorPubkey) :
  forall m : gmap ValidatorPubkey Address,
    foldl (fun m p => <[p := n]> m) m ps !! p
    = if decide (p ∈ ps) then Some n else m !! p.
Proof.
  induction ps as [| q ps IH]; intros m; cbn [foldl].
  - now rewrite decide_False by apply not_elem_of_nil.
  - rewrite IH. destruct (decide (p ∈ ps)) as [Hin | Hout].
    + rewrite decide_True by now right. reflexivity.
    + destruct (decide (p = q)) as [-> | Hne].
      * rewrite decide_True by now left. apply lookup_insert_eq.
      * rewrite decide_False by (rewrite elem_of_cons; tauto).
        now apply lookup_insert_ne.
Qed.

(** X15: the loop of [Init] over the nodes loads the snapshot. When the three
    reads of every listed node succeed, whatever the time of the call, with
    [sp n], [dist n] and [pools n], the loop returns the number of minipools
    listed; afterwards every listed node has the record {sp n, dist n}, every
    listed pubkey is owned by a listed node that lists it, nothing else of
    the two indices has changed, the records allocated before are where they
    were, and the effects are the three reads of each node, in order. *)
Theorem preload_loads_snapshot (w : World) (opts : option CallOpts)
    (sp : Address -> bool) (dist : Address -> Address)
    (pools : Address -> list ValidatorPubkey) (nodes : list Address) :
  (forall t n, n ∈ nodes ->
     GetSmoothingPoolRegistrationState w t n opts = Ok (sp n)) ->
  (forall t n, n ∈ nodes -> GetDistributorAddress w t n opts = Ok (dist n)) ->
  (forall t n, n ∈ nodes -> GetNodeMinipools w t n opts = Ok (pools n)) ->
  forall (count : Z) (e : ExecutionLayer),
  exists e',
    preload w opts nodes count e
    = Returned (Ok (count + Z.of_nat (sum_list_with (fun n => length (pools n)) nodes))) e'
    /\ (forall n, n ∈ nodes ->
          nodeRecord e' n
          = Some {| inSmoothingPool := sp n; feeDistributor := dist n |})
    /\ (forall p, Exists (fun n => p ∈ pools n) nodes ->
          exists n, n ∈ nodes /\ p ∈ pools n /\ minipoolIndex e' !! p = Some n)
    /\ (forall a, a ∉ nodes -> nodeIndex e' !! a = nodeIndex e !! a)
    /\ (forall p, ~ Exists (fun n => p ∈ pools n) nodes ->
          minipoolIndex e' !! p = minipoolIndex e !! p)
    /\ (exists new, heap e' = heap e ++ new)
    /\ trace e'
       = trace e ++ flat_map (fun n => [EGetSmoothingPoolRegistrationState n opts;
                                        EGetDistributorAddress n opts;
                                        EGetNodeMinipools n opts]) nodes.
Proof.
  induction nodes as [| n nodes IH]; intros Hsp Hdist Hpools count e.
  - exists e. cbn [preload sum_list_with flat_map].
    split; [unfold ret; do 2 f_equal; lia |].
    split; [intros ? H; now apply elem_of_nil in H |].
    split; [intros ? H; now apply Exists_nil in H |].
    split; [reflexivity |]. split; [reflexivity |].
    split; [exists []; now rewrite app_nil_r |].
    now rewrite app_nil_r.
  - rewrite (preload_cons w opts n nodes count e (sp n) (dist n) (pools n))
      by (first [apply Hsp | apply Hdist | apply Hpools]; now left).
    match goal with |- context [preload w opts nodes ?c ?e1] =>
      destruct (IH ltac:(intros; apply Hsp; now right)
                   ltac:(intros; apply Hdist; now right)
                   ltac:(intros; apply Hpools; now right) c e1)
        as (e' & Hrun & Hrec & Hown & Hnodes & Hrest & [new Hheap] & Htrace);
      assert (Hh1 : heap e1 = heap e ++ [{| inSmoothingPool := sp n;
                                            feeDistributor := dist n |}])
        by reflexivity;
      assert (Hn1 : nodeIndex e1 = <[n := length (heap e)]> (nodeIndex e))
        by reflexivity;
      assert (Hm1 : minipoolIndex e1
                    = foldl (fun m p => <[p := n]> m) (minipoolIndex e) (pools n))
        by reflexivity;
      assert (Ht1 : trace e1 = trace e ++ [EGetSmoothingPoolRegistrationState n opts;
                                           EGetDistributorAddress n opts;
                                           EGetNodeMinipools n opts])
        by reflexivity
    end.
    exists e'. split.
    { rewrite Hrun. do 2 f_equal. cbn [sum_list_with]. lia. }
    split.
    { intros a Ha. destruct (decide (a ∈ nodes)) as [Hin | Hout]; [now apply Hrec |].
      apply elem_of_cons in Ha as [-> | Ha]; [| contradiction].
      unfold nodeRecord. rewrite (Hnodes n Hout), Hn1, lookup_insert_eq.
      rewrite Hheap, Hh1, <- app_assoc. now apply list_lookup_middle. }
    split.
    { intros p Hp.
      destruct (decide (Exists (fun n => p ∈ pools n) nodes)) as [Hin | Hout].
      - destruct (Hown p Hin) as (m & Hm & Hpm & Hlook).
        exists m. split; [now right | auto].
      - apply Exists_cons in Hp as [Hp | Hp]; [| contradiction].
        exists n. split; [now left |]. split; [exact Hp |].
        rewrite (Hrest p Hout), Hm1, stored_last. now rewrite decide_True. }
    split.
    { intros a Ha. apply not_elem_of_cons in Ha as [Hne Ha].
      rewrite (Hnodes a Ha), Hn1. now apply lookup_insert_ne. }
    split.
    { intros p Hp. rewrite Exists_cons in Hp.
      rewrite (Hrest p ltac:(tauto)), Hm1, stored_last.
      now rewrite decide_False by tauto. }
    split.
    { exists ([{| inSmoothingPool := sp n; feeDistributor := dist n |}] ++ new).
      now rewrite Hheap, Hh1, <- app_assoc. }
    cbn [flat_map]. now rewrite Htrace, Ht1, <- app_assoc.
Qed.

Lemma preload_loads_snapshot_witness :
  exists e',
    preload Fixture.calm None [Fixture.N1; Fixture.N2] 0 Startup.cold
    = Returned (Ok 2) e'
    /\ nodeRecord e' Fixture.N2
       = Some {| inSmoothingPool := false; feeDistributor := Fixture.F2 |}.
Proof.
  destruct (preload_loads_snapshot Fixture.calm None (fun _ => false)
              (fun a => if a =? Fixture.N1 then Fixture.F1 else Fixture.F2)
              (fun _ => [Fixture.P1]) [Fixture.N1; Fixture.N2]
              ltac:(intros; reflexivity) ltac:(intros; reflexivity)
              ltac:(intros; reflexivity) 0 Startup.cold)
    as (e' & Hrun & Hrec & _).
  exists e'. split; [exact Hrun |].
  apply (Hrec Fixture.N2). right. left.
Defined.

(** ** Back-fill, once more *)

(** X16: a back-fill that returns an error has handled no log. The error is
    that of the header query or of the log query; both indices, the node
    records and highestBlock are as before the call, so that a later
    back-fill starts from the same block. *)
Theorem backfillEvents_error_changes_nothing (w : World) (e e' : ExecutionLayer)
    (err : error) :
  backfillEvents w e = Returned (Some err) e' ->
  minipoolIndex e' = minipoolIndex e
  /\ nodeIndex e' = nodeIndex e
  /\ heap e' = heap e
  /\ highestBlock e' = highestBlock e
  /\ ((since e e' = [EHeaderByNumber]
       /\ HeaderByNumber w (length (trace e)) = Fail err)
      \/ exists q,
           since e e' = [EHeaderByNumber; EFilterLogs q]
           /\ FilterLogs w (S (length (trace e))) q = Fail err
           /\ option_map (fun b => b + 1) (highestBlock e) = FromBlock q).
Proof.
  unfold backfillEvents, contractAddr, since. destruct e as [? ? nm mm ? ? ? ? ? ? ? hb ? ? ? t ?].
  go_simpl. destruct hb as [hb |]; [| discriminate].
  destruct (HeaderByNumber w (length t)) as [stop | err0] eqn:Hhead.
  - destruct (stop <? hb + 1); [discriminate |].
    destruct mm as [mm |]; [| discriminate]. destruct nm as [nm |]; [| discriminate].
    go_simpl. rewrite length_app, Nat.add_1_r.
    match goal with |- context [FilterLogs w _ ?q] =>
      destruct (FilterLogs w _ q) as [events | err1] eqn:Hlogs end.
    + match goal with |- context [forM_ ?f ?l ?s] => destruct (forM_ f l s) end;
        discriminate.
    + intros [= <- <-]. go_simpl. do 4 (split; [reflexivity |]). right.
      eexists. split; [| split; [exact Hlogs | reflexivity]].
      now rewrite <- app_assoc, drop_app_length.
  - intros [= <- <-]. go_simpl. do 4 (split; [reflexivity |]). left.
    split; [now rewrite drop_app_length | reflexivity].
Qed.

Lemma backfillEvents_error_changes_nothing_witness :
  exists e',
    backfillEvents Outage.headerDown Fixture.loaded = Returned (Some "timeout") e'
    /\ highestBlock e' = Some 100.
Proof.
  eexists. split; [vm_compute; reflexivity |].
  destruct (backfillEvents_error_changes_nothing Outage.headerDown
              Fixture.loaded _ "timeout" ltac:(vm_compute; reflexivity))
    as (_ & _ & _ & H & _).
  exact H.
Defined.

(** X17: a back-fill that returns nil leaves highestBlock at the larger of
    its old value and the head it asked for, whatever block numbers the logs
    carried; and a back-fill that follows it and finds the head no further
    asks for no logs and changes nothing but the trace. *)
Theorem backfillEvents_settles (w : World) (e e' : ExecutionLayer) :
  backfillEvents w e = Returned None e' ->
  exists hb stop,
    highestBlock e = Some hb
    /\ HeaderByNumber w (length (trace e)) = Ok stop
    /\ highestBlock e' = Some (Z.max hb stop)
    /\ forall w' stop',
         HeaderByNumber w' (length (trace e')) = Ok stop' ->
         stop' <= Z.max hb stop ->
         backfillEvents w' e' =
         Returned None
           (with_trace (trace e' ++ [EHeaderByNumber;
                                     ELog DebugLevel "No blocks to backfill events from" []])
              e').
Proof.
  intros Hrun.
  assert (H : exists hb stop,
             highestBlock e = Some hb
             /\ HeaderByNumber w (length (trace e)) = Ok stop
             /\ highestBlock e' = Some (Z.max hb stop)).
  { revert Hrun. unfold backfillEvents, contractAddr.
    destruct e as [? ? nm mm ? ? ? ? ? ? ? hb ? ? ? t ?].
    go_simpl. destruct hb as [hb |]; [| discriminate].
    destruct (HeaderByNumber w (length t)) as [stop | err0] eqn:Hhead;
      [| discriminate].
    intros Hrun; exists hb, stop; revert Hrun. destruct (stop <? hb + 1) eqn:Hgap.
    - intros [= <-]. go_simpl. apply Z.ltb_lt in Hgap.
      repeat split. f_equal. lia.
    - apply Z.ltb_ge in Hgap.
      destruct mm as [mm |]; [| discriminate]. destruct nm as [nm |]; [| discriminate].
      go_simpl.
      match goal with |- context [FilterLogs w ?t ?q] =>
        destruct (FilterLogs w t q) as [events | err1] end; [| discriminate].
      match goal with |- context [forM_ ?f ?l ?s] =>
        destruct (forM_ f l s) as [[] e2 | msg e2] end; [| discriminate].
      intros [= <-]. destruct e2. go_simpl. repeat split. f_equal. lia. }
  destruct H as (hb & stop & Hhb & Hhead & Hhb').
  exists hb, stop. do 3 (split; [assumption |]).
  intros w' stop' Hhead' Hle.
  apply (backfillEvents_no_gap w' e' (Z.max hb stop) stop'); [assumption .. | lia].
Qed.

Lemma backfillEvents_settles_witness :
  exists e',
    backfillEvents Backfill.ahead Fixture.loaded = Returned None e'
    /\ highestBlock e' = Some 101
    /\ value (backfillEvents Backfill.ahead e') = Some None.
Proof.
  eexists. split; [vm_compute; reflexivity |].
  destruct (backfillEvents_settles Backfill.ahead Fixture.loaded _
              ltac:(vm_compute; reflexivity))
    as (hb & stop & Hhb & Hhead & Hhb' & Hnext).
  injection Hhb as <-. injection Hhead as <-.
  split; [exact Hhb' |].
  rewrite (Hnext Backfill.ahead 101); [reflexivity | vm_compute; reflexivity | vm_compute; discriminate].
Defined.

(** ** ForEachNode *)

Lemma Range_noting {V St : Type} (closure : Address -> St -> bool * St)
    (entries : list (Address * V)) :
  forall (s : St) (log : list Address),
  exists k,
    snd (Range entries (fun k _ => noting closure k) (s, log))
    = log ++ take k (entries.*1)
    /\ ((forall a s, fst (closure a s) = true) -> k = length entries)
    /\ ((forall a s, fst (closure a s) = false) -> (k <= 1)%nat).
Proof.
  induction entries as [| [a v] rest IH]; intros s log.
  - exists 0%nat. cbn. rewrite app_nil_r. repeat split; lia.
  - cbn [Range]. unfold noting at 1. cbn [fst snd].
    destruct (closure a s) as [[|] s'] eqn:Hc.
    + destruct (IH s' (log ++ [a])) as (k & Hk & Hall & Hnone).
      exists (S k). cbn [fmap list_fmap take fst]. rewrite Hk, <- app_assoc.
      split; [reflexivity |]. split.
      * intros H. cbn [length]. now rewrite Hall.
      * intros H. specialize (H a s). rewrite Hc in H. discriminate.
    + exists 1%nat. cbn [fmap list_fmap take fst snd]. rewrite take_0.
      split; [reflexivity |]. split; [| lia].
      intros H. specialize (H a s). rewrite Hc in H. discriminate.
Qed.

(** X18: [ForEachNode] calls the closure with addresses of the node index
    only, and with none twice. A closure that always returns true is called
    with every address of the index; one that always returns false is called
    at most once. *)
Theorem ForEachNode_visits {St : Type} (closure : Address -> St -> bool * St)
    (e : ExecutionLayer) (s : St) :
  let seen := snd (ForEachNode (noting closure) e (s, [])) in
  NoDup seen
  /\ (forall a, a ∈ seen -> is_Some (nodeIndex e !! a))
  /\ ((forall a s, fst (closure a s) = true) ->
      forall a, is_Some (nodeIndex e !! a) -> a ∈ seen)
  /\ ((forall a s, fst (closure a s) = false) -> (length seen <= 1)%nat).
Proof.
  unfold ForEachNode.
  destruct (Range_noting closure (map_to_list (nodeIndex e)) s [])
    as (k & Hk & Hall & Hnone).
  cbv zeta. rewrite Hk. cbn [app].
  pose proof (NoDup_fst_map_to_list (nodeIndex e)) as Hnd.
  split; [| split; [| split]].
  - rewrite <- (take_drop k) in Hnd. now apply NoDup_app in Hnd as [Hnd _].
  - intros a Ha. apply subseteq_take in Ha.
    apply list_elem_of_fmap in Ha as ([a' ptr] & -> & Hin).
    apply elem_of_map_to_list in Hin. now exists ptr.
  - intros H a [ptr Ha]. rewrite (Hall H), <- length_fmap with (f := fst), firstn_all.
    apply list_elem_of_fmap. exists (a, ptr). split; [reflexivity |].
    now apply elem_of_map_to_list.
  - intros H. rewrite length_take. specialize (Hnone H). lia.
Qed.

Lemma ForEachNode_visits_witness :
  Fixture.N1 ∈ snd (ForEachNode (noting (fun _ (n : nat) => (true, S n)))
                      Fixture.loaded (0%nat, [])).
Proof.
  destruct (ForEachNode_visits (fun _ (n : nat) => (true, S n)) Fixture.loaded 0%nat)
    as (_ & _ & H & _).
  apply H; [reflexivity |]. exists 0%nat. vm_compute. reflexivity.
Defined.
